(** * praxis-move-explainer: the game analysis pipeline

    A shallow embedding of
    - [schemas/models.py]            (the records),
    - [engines/stockfish_engine.py]  (the engine session and the evaluator),
    - [core/game_analyzer.py]        (the move loop),
    - [llms/mock_explainer.py], [llms/openai_explainer.py] (the explainers),
    followed by the properties of the specification stated on it.

    Python integers are [Z]; the [float] threshold is an extended rational
    (every finite float is a rational, and Python compares an [int] with a
    [float] exactly); Python [str] is [string], read as ASCII text; the
    [sections] dict of the response parser is a [gmap string string].
    The chess library (python-chess) and the two external services (the UCI
    engine process, the text-generation backend) are interfaces. *)

From Stdlib Require Import ZArith QArith String Ascii List Bool Lia Sorted.
From stdpp Require Import gmap strings list fin_maps.

Local Open Scope string_scope.
Local Open Scope Z_scope.
Local Open Scope list_scope.

(** ** schemas/models.py *)

Record Position := mkPosition {
  fen : string;
  move_number : Z;
  player_color : string }.

Record Evaluation := mkEvaluation {
  score_cp : Z;
  best_move_uci : string;
  best_move_san : string }.

Record Mistake := mkMistake {
  position_before_move : Position;
  position_after_move : Position;
  move_played : string;
  evaluation_before : Evaluation;
  evaluation_after : Evaluation;
  eval_drop_cp : Z }.

Record Explanation := mkExplanation {
  why_good : string;
  why_failed : string;
  concept_involved : string;
  typical_pattern : string }.

Record AnalyzedMistake := mkAnalyzedMistake {
  the_mistake : Mistake;
  the_explanation : Explanation }.

(** ** The scores of python-chess ([chess.engine.Score], [chess.engine.PovScore])

    [chess.WHITE] is [True] and [chess.BLACK] is [False].  A [Score] is a
    centipawn value [Cp n], a mate in [n] moves [Mate n] (negative: the
    point-of-view side is being mated; [Mate 0]: it is mated) or
    [MateGiven].  A [PovScore] is "a relative score and the point of view":
    [relative], the field the evaluator reads, is the score as seen by the
    colour [turn], and [pov], [white] are the library's conversions to a
    given colour.  [engine.analyse(board, ...)] answers with
    [PovScore(Cp(n), board.turn)] or [PovScore(Mate(n), board.turn)], the
    UCI score being the one of the side to move. *)

Definition Color := bool.
Definition WHITE : Color := true.
Definition BLACK : Color := false.

Inductive Score :=
| Cp (cp : Z)
| Mate (moves : Z)
| MateGiven.

Definition Score_mate (s : Score) : option Z :=
  match s with
  | Cp _ => None
  | Mate n => Some n
  | MateGiven => Some 0
  end.

(** [Score.score()] without a [mate_score]: [None] on every mate score. *)
Definition Score_score (s : Score) : option Z :=
  match s with
  | Cp n => Some n
  | Mate _ => None
  | MateGiven => None
  end.

Definition Score_is_mate (s : Score) : bool :=
  match Score_mate s with Some _ => true | None => false end.

Definition Score_neg (s : Score) : Score :=
  match s with
  | Cp n => Cp (- n)
  | Mate n => if n =? 0 then MateGiven else Mate (- n)
  | MateGiven => Mate 0
  end.

Record PovScore := mkPovScore {
  relative : Score;
  turn : Color }.

Definition pov (s : PovScore) (color : Color) : Score :=
  if Bool.eqb (turn s) color then relative s else Score_neg (relative s).

Definition white (s : PovScore) : Score := pov s WHITE.

Definition is_mate (s : PovScore) : bool := Score_is_mate (relative s).

(** The side whose point of view a score is taken from wins by force. *)
Definition mating (s : Score) : bool :=
  match s with
  | Cp _ => false
  | Mate n => 0 <? n
  | MateGiven => true
  end.

(** ** engines/stockfish_engine.py: the pure part *)

(** [x or 0] on an optional integer. *)
Definition or_zero (cp : option Z) : Z :=
  match cp with
  | Some n => if n =? 0 then 0 else n
  | None => 0
  end.

Definition _score_to_centipawns (score : PovScore) (board_turn : Color) : Z :=
  let cp :=
    if is_mate score then
      match Score_mate (relative score) with
      | Some mate_in => if 0 <? mate_in then Some 10000 else Some (-10000)
      | None => None
      end
    else Score_score (relative score) in
  let cp :=
    if Bool.eqb board_turn BLACK
    then match cp with Some n => Some (- n) | None => Some 0 end
    else cp in
  or_zero cp.

(** The threshold is a Python [float]: a rational, an infinity or a NaN. *)
Inductive Threshold :=
| Finite (q : Q)
| PosInf
| NegInf
| NaN.

(** [x >= t] for an integer [x] and a float [t], as Python evaluates it. *)
Definition int_ge_float (x : Z) (t : Threshold) : bool :=
  match t with
  | Finite q => Qle_bool q (inject_Z x)
  | PosInf => false
  | NegInf => true
  | NaN => false
  end.

Definition is_blunder (eval_before eval_after : Evaluation) (threshold : Threshold) : bool :=
  let eval_drop := score_cp eval_before - score_cp eval_after in
  int_ge_float eval_drop threshold.

(** The mathematical order the comparison decides: [t <= x]. *)
Definition reaches (x : Z) (t : Threshold) : Prop :=
  match t with
  | Finite q => (q <= inject_Z x)%Q
  | PosInf => False
  | NegInf => True
  | NaN => False
  end.

(** The order on thresholds; a NaN is not comparable with anything. *)
Definition Threshold_le (t t' : Threshold) : Prop :=
  match t, t' with
  | NaN, _ => False
  | _, NaN => False
  | NegInf, _ => True
  | _, PosInf => True
  | Finite q, Finite q' => (q <= q')%Q
  | _, _ => False
  end.

(** ** Python exceptions and results *)

Inductive exn :=
| ValueError (msg : string)
| RuntimeError (msg : string)
| KeyError (key : string)
| ExternalError (msg : string).

Definition result (A : Type) : Type := exn + A.

(** ** Python [str] methods used by the response parser (ASCII text) *)

Module PyStr.

(** [str.isspace] on one character of the ASCII range: TAB, LF, VT, FF,
    CR, the separators 0x1c-0x1f and the space. *)
Definition isspace (c : ascii) : bool :=
  let n := N_of_ascii c in
  ((9 <=? n) && (n <=? 13) || (28 <=? n) && (n <=? 32))%N.

Fixpoint lstrip (s : string) : string :=
  match s with
  | EmptyString => EmptyString
  | String c s' => if isspace c then lstrip s' else s
  end.

Fixpoint rstrip (s : string) : string :=
  match s with
  | EmptyString => EmptyString
  | String c s' =>
      match rstrip s' with
      | EmptyString => if isspace c then EmptyString else String c EmptyString
      | r => String c r
      end
  end.

Definition strip (s : string) : string := rstrip (lstrip s).

(** [s.split(sep)] for a one-character separator: never an empty list. *)
Fixpoint split (sep : ascii) (s : string) : list string :=
  match s with
  | EmptyString => [EmptyString]
  | String c s' =>
      if Ascii.eqb c sep then EmptyString :: split sep s'
      else match split sep s' with
           | piece :: pieces => String c piece :: pieces
           | [] => [String c EmptyString]
           end
  end.

Definition upper_char (c : ascii) : ascii :=
  let n := N_of_ascii c in
  if ((97 <=? n) && (n <=? 122))%N then ascii_of_N (n - 32) else c.

Fixpoint upper (s : string) : string :=
  match s with
  | EmptyString => EmptyString
  | String c s' => String (upper_char c) (upper s')
  end.

(** [needle in haystack]. *)
Fixpoint contains (needle haystack : string) : bool :=
  String.prefix needle haystack ||
  match haystack with
  | EmptyString => false
  | String _ rest => contains needle rest
  end.

(** Truth value of a string: empty is false. *)
Definition truthy (s : string) : bool :=
  match s with EmptyString => false | String _ _ => true end.

Definition newline : ascii := ascii_of_N 10.

End PyStr.

(** ** llms/openai_explainer.py: [_parse_response]

    The dict [sections] is a finite map; reading a key it does not hold is
    a [KeyError]. [current_section] is [None] or a key. *)

Definition getitem (d : gmap string string) (key : string) : result string :=
  match d !! key with
  | Some v => inr v
  | None => inl (KeyError key)
  end.

Definition initial_sections : gmap string string :=
  <["why_looked_good" := ""]> (<["why_failed" := ""]>
    (<["concept_involved" := ""]> (<["typical_pattern" := ""]> ∅))).

(** The [if]/[elif] chain on a stripped, non-empty line: the key of the
    section the line opens, if it opens one. *)
Definition section_header (line : string) : option string :=
  if PyStr.contains "WHY IT LOOKED GOOD" (PyStr.upper line) then Some "why_looked_good"
  else if PyStr.contains "WHY IT FAILED" (PyStr.upper line) then Some "why_failed"
  else if PyStr.contains "CONCEPT" (PyStr.upper line) then Some "concept_involved"
  else if PyStr.contains "PATTERN" (PyStr.upper line) then Some "typical_pattern"
  else None.

Definition parse_state : Type := gmap string string * option string.

(** One iteration of [for line in lines]. *)
Definition parse_line (st : parse_state) (line : string) : result parse_state :=
  let '(sections, current_section) := st in
  let line := PyStr.strip line in
  if negb (PyStr.truthy line) then inr st
  else
    match section_header line with
    | Some key => inr (sections, Some key)
    | None =>
        match current_section with
        | Some key =>
            if PyStr.truthy key then
              match getitem sections key with
              | inl e => inl e
              | inr old =>
                  if PyStr.truthy old
                  then inr (<[key := old +:+ (" " +:+ line)]> sections, current_section)
                  else inr (<[key := line]> sections, current_section)
              end
            else inr st
        | None => inr st
        end
    end.

Fixpoint parse_lines (lines : list string) (st : parse_state) : result parse_state :=
  match lines with
  | [] => inr st
  | line :: rest =>
      match parse_line st line with
      | inl e => inl e
      | inr st' => parse_lines rest st'
      end
  end.

Definition response_lines (response : string) : list string :=
  PyStr.split PyStr.newline (PyStr.strip response).

Definition _parse_response (response : string) : result Explanation :=
  match parse_lines (response_lines response) (initial_sections, None) with
  | inl e => inl e
  | inr (sections, _) =>
      match getitem sections "why_looked_good" with
      | inl e => inl e
      | inr good =>
      match getitem sections "why_failed" with
      | inl e => inl e
      | inr failed =>
      match getitem sections "concept_involved" with
      | inl e => inl e
      | inr concept =>
      match getitem sections "typical_pattern" with
      | inl e => inl e
      | inr pattern => inr (mkExplanation good failed concept pattern)
      end end end end
  end.

(** No line of the response opens the section stored under [key]: the
    section is omitted, or its label is not recognised. *)
Definition section_missing (key : string) (response : string) : bool :=
  forallb (fun line =>
             negb (PyStr.truthy (PyStr.strip line)) ||
             negb (bool_decide (section_header (PyStr.strip line) = Some key)))
          (response_lines response).

Definition sample_response : string :=
  String.concat (String PyStr.newline EmptyString)
    [ "Why it looked good:";
      "It wins a pawn.";
      "";
      "why it failed:";
      "  The queen is trapped  ";
      "after Nc3.";
      "Key idea: piece safety" ].

(** ** The chess library, as the pipeline uses it

    [chess.Board] with [turn], [push], [fen], [fullmove_number] and [san],
    [chess.Move.uci], and [chess.pgn.read_game] with the starting board and
    the main line of the game it returns ([None] when the text holds no
    game, as the empty text). [push] hands the move to the other side. *)

Class ChessLib := {
  Board : Type;
  Move : Type;
  Game : Type;
  board_turn : Board -> Color;
  board_push : Board -> Move -> Board;
  board_fen : Board -> string;
  board_fullmove_number : Board -> Z;
  board_san : Board -> Move -> string;
  move_uci : Move -> string;
  read_game : string -> option Game;
  game_board : Game -> Board;
  game_mainline : Game -> list Move;
  push_turn : forall b m, board_turn (board_push b m) = negb (board_turn b);
  read_game_empty : read_game "" = None }.

(** The handle of a running engine process ([chess.engine.SimpleEngine]). *)
Record SimpleEngine := mkSimpleEngine { pid : nat }.

Section Pipeline.

Context `{lib : ChessLib}.

(** *** Effects: a trace of calls, and exceptions

    The trace records every process started or quit, every call of
    [StockfishEngine.evaluate] and every call of the explainer.  The
    external services answer as a function of the trace so far: they
    are stateful, and may fail. *)

Inductive event :=
| EvPopen (path : string)
| EvQuit (h : SimpleEngine)
| EvEvaluate (board : Board)
| EvExplain (m : Mistake).

Definition trace : Type := list event.

Definition M (A : Type) : Type := trace -> result A * trace.

Definition ret {A} (a : A) : M A := fun tr => (inr a, tr).

Definition raise {A} (e : exn) : M A := fun tr => (inl e, tr).

Definition bind {A B} (c : M A) (k : A -> M B) : M B :=
  fun tr =>
    match c tr with
    | (inl e, tr') => (inl e, tr')
    | (inr a, tr') => k a tr'
    end.

(** Record a call, then take the answer the service gives after the
    calls recorded before it. *)
Definition call {A} (ev : event) (answer : trace -> result A) : M A :=
  fun tr => (answer tr, tr ++ [ev]).

Notation "'do' x <- c ; k" := (bind c (fun x => k))
  (at level 10, x name, c at level 100, k at level 200).

(** [for x in xs: s = body(s, x)], stopping at the first exception. *)
Fixpoint for_each {A S} (body : S -> A -> M S) (xs : list A) (s : S) : M S :=
  match xs with
  | [] => ret s
  | x :: rest => do s' <- body s x; for_each body rest s'
  end.

(** [info] of [engine.analyse]: [info.get("score")] and [info.get("pv", [])]. *)
Record InfoDict := mkInfoDict {
  info_score : option PovScore;
  info_pv : list Move }.

(** The engine process: [SimpleEngine.popen_uci] and [SimpleEngine.analyse]. *)
Record Services := mkServices {
  popen_uci : trace -> string -> result SimpleEngine;
  analyse : trace -> SimpleEngine -> Board -> Z -> result InfoDict }.

Variable svc : Services.

(** *** engines/stockfish_engine.py: the session and [evaluate] *)

Record StockfishEngine := mkStockfishEngine {
  stockfish_path : string;
  depth : Z;
  engine : option SimpleEngine }.

Definition StockfishEngine_init (path : option string) (depth : Z) : StockfishEngine :=
  {| stockfish_path :=
       match path with
       | Some p => if PyStr.truthy p then p else "stockfish"
       | None => "stockfish"
       end;
     depth := depth;
     engine := None |}.

Definition start (self : StockfishEngine) : M StockfishEngine :=
  do h <- call (EvPopen (stockfish_path self))
               (fun tr => popen_uci svc tr (stockfish_path self));
  ret {| stockfish_path := stockfish_path self; depth := depth self; engine := Some h |}.

(** [SimpleEngine.quit] of a handle that is held is taken to return. *)
Definition close (self : StockfishEngine) : M StockfishEngine :=
  match engine self with
  | Some h =>
      do _ <- call (EvQuit h) (fun _ => inr tt);
      ret {| stockfish_path := stockfish_path self; depth := depth self; engine := None |}
  | None => ret self
  end.


Definition evaluate (self : StockfishEngine) (board : Board) : M Evaluation :=
  do _ <- call (EvEvaluate board) (fun _ => inr tt);
  match engine self with
  | None => raise (RuntimeError "Engine not started. Use context manager or call start()")
  | Some h =>
      do info <- (fun tr => (analyse svc tr h board (depth self), tr));
      let cp_score :=
        match info_score info with
        | Some score => _score_to_centipawns score (board_turn board)
        | None => 0
        end in
      match info_pv info with
      | best_move :: _ =>
          ret (mkEvaluation cp_score (move_uci best_move) (board_san board best_move))
      | [] => ret (mkEvaluation cp_score "" "(none)")
      end
  end.

(** *** llms/base.py, llms/mock_explainer.py, llms/openai_explainer.py *)

Record LLMExplainer := mkLLMExplainer {
  explain_mistake : trace -> Mistake -> result Explanation }.

Definition mock_explanation (mistake : Mistake) : Explanation :=
  {| why_good :=
       "[Mock] The move " +:+ move_played mistake +:+
       " appeared to develop your pieces and control the center.";
     why_failed :=
       "[Mock] This move ignores a critical tactical threat. The best move was " +:+
       best_move_san (evaluation_before mistake) +:+ ".";
     concept_involved := "[Mock] Tactical awareness and threat recognition";
     typical_pattern :=
       "[Mock] Always check for opponent's threats (checks, captures, attacks) before making your move." |}.

Definition MockExplainer : LLMExplainer :=
  {| explain_mistake := fun _ mistake => inr (mock_explanation mistake) |}.

(** The backend is asked with the prompt built from the mistake; its
    answer is parsed by [_parse_response]. *)
Definition OpenAIExplainer (_call_openai : trace -> Mistake -> result string) : LLMExplainer :=
  {| explain_mistake := fun tr mistake =>
       match _call_openai tr mistake with
       | inl e => inl e
       | inr response => _parse_response response
       end |}.

(** *** core/game_analyzer.py *)

Record GameAnalyzer := mkGameAnalyzer {
  analyzer_engine : StockfishEngine;
  explainer : LLMExplainer;
  blunder_threshold : Threshold }.

Definition color_name (c : Color) : string :=
  if Bool.eqb c WHITE then "white" else "black".

(** [target_color != 'both' and target_color != move_color]. *)
Definition skipped (target_color move_color : string) : bool :=
  negb (String.eqb target_color "both") && negb (String.eqb target_color move_color).

Definition eval_after_flipped (eval_after : Evaluation) : Evaluation :=
  {| score_cp := - score_cp eval_after;
     best_move_uci := best_move_uci eval_after;
     best_move_san := best_move_san eval_after |}.

(** The [Mistake] built for a move played on [board] (the board before
    the move), from the two evaluations the engine returned. *)
Definition build_mistake (board : Board) (move : Move)
           (eval_before eval_after : Evaluation) : Mistake :=
  let move_color := color_name (board_turn board) in
  let fen_before := board_fen board in
  let move_number := board_fullmove_number board in
  let move_san := board_san board move in
  let fen_after := board_fen (board_push board move) in
  {| position_before_move :=
       {| fen := fen_before; move_number := move_number; player_color := move_color |};
     position_after_move :=
       {| fen := fen_after; move_number := move_number; player_color := move_color |};
     move_played := move_san;
     evaluation_before := eval_before;
     evaluation_after := eval_after_flipped eval_after;
     eval_drop_cp := score_cp eval_before - score_cp (eval_after_flipped eval_after) |}.

Definition loop_state : Type := Board * list AnalyzedMistake.

(** One iteration of [for node in game.mainline()]. *)
Definition loop_body (self : GameAnalyzer) (target_color : string)
           (st : loop_state) (move : Move) : M loop_state :=
  let '(board, mistakes) := st in
  let move_color := color_name (board_turn board) in
  if skipped target_color move_color then ret (board_push board move, mistakes)
  else
    do eval_before <- evaluate (analyzer_engine self) board;
    let board' := board_push board move in
    do eval_after <- evaluate (analyzer_engine self) board';
    if is_blunder eval_before (eval_after_flipped eval_after) (blunder_threshold self)
    then
      let mistake := build_mistake board move eval_before eval_after in
      do explanation <- call (EvExplain mistake)
                             (fun tr => explain_mistake (explainer self) tr mistake);
      ret (board', mistakes ++ [mkAnalyzedMistake mistake explanation])
    else ret (board', mistakes).

Definition analyze_pgn (self : GameAnalyzer) (pgn_string target_color : string)
  : M (list AnalyzedMistake) :=
  match read_game pgn_string with
  | None => raise (ValueError "Invalid PGN: could not parse game")
  | Some game =>
      do st <- for_each (loop_body self target_color) (game_mainline game) (game_board game, []);
      ret (snd st)
  end.

End Pipeline.

Arguments ret {lib A} a _ /.
Arguments raise {lib A} e _ /.
Arguments bind {lib A B} c k _ /.
Arguments call {lib A} ev answer _ /.
Arguments evaluate : simpl never.
Arguments loop_body : simpl never.

(** ** Notions used in the statements *)

Section Notions.

Context `{lib : ChessLib}.

(** The board after the moves [played], from [board]. *)
Definition replay (played : list Move) (board : Board) : Board :=
  fold_left board_push played board.

(** [moves] holds a move, played on the board [board] reached from
    [start], whose mover [target_color] selects. *)
Definition analysed_at (target_color : string) (start : Board) (moves : list Move)
           (board : Board) (move : Move) : Prop :=
  exists played rest,
    moves = played ++ move :: rest /\
    board = replay played start /\
    skipped target_color (color_name (board_turn board)) = false.

(** The record [am] was built for a selected move of [moves], from the
    evaluator's answers on the board before and on the board after it,
    which the classifier took for a mistake, and holds the explainer's
    answer. *)
Definition emitted_at (svc : Services) (self : GameAnalyzer) (target_color : string)
           (start : Board) (moves : list Move) (am : AnalyzedMistake) : Prop :=
  exists board move eval_before eval_after tr,
    let tr1 := tr ++ [EvEvaluate board] in
    let tr2 := tr1 ++ [EvEvaluate (board_push board move)] in
    analysed_at target_color start moves board move /\
    evaluate svc (analyzer_engine self) board tr = (inr eval_before, tr1) /\
    evaluate svc (analyzer_engine self) (board_push board move) tr1 =
    (inr eval_after, tr2) /\
    the_mistake am = build_mistake board move eval_before eval_after /\
    explain_mistake (explainer self) tr2 (the_mistake am) = inr (the_explanation am) /\
    is_blunder eval_before (eval_after_flipped eval_after) (blunder_threshold self) = true.

(** The mistakes of one colour, in order. *)
Definition moved_by (color : string) (am : AnalyzedMistake) : bool :=
  String.eqb (player_color (position_before_move (the_mistake am))) color.

(** The engine and the explainer answer a question the same way whatever
    was asked before. *)
Definition deterministic (svc : Services) (self : GameAnalyzer) : Prop :=
  (forall tr1 tr2 h board d, analyse svc tr1 h board d = analyse svc tr2 h board d) /\
  (forall tr1 tr2 m,
      explain_mistake (explainer self) tr1 m = explain_mistake (explainer self) tr2 m).

Definition mistakes_of (r : result (list AnalyzedMistake)) : list AnalyzedMistake :=
  match r with
  | inr l => l
  | inl _ => []
  end.

End Notions.

(** *** On the response parser *)

Definition is_key (k : string) : Prop :=
  k = "why_looked_good" \/ k = "why_failed" \/
  k = "concept_involved" \/ k = "typical_pattern".

(** The dict holds the four keys, and [current_section] is one of them. *)
Definition well_keyed (st : parse_state) : Prop :=
  (forall k, is_key k -> is_Some (fst st !! k)) /\
  (forall k, snd st = Some k -> is_key k).

(** The section under [k] has not been opened and is still empty. *)
Definition untouched (k : string) (st : parse_state) : Prop :=
  snd st <> Some k /\ fst st !! k = Some "".

Definition opens (k : string) (line : string) : bool :=
  PyStr.truthy (PyStr.strip line) &&
  bool_decide (section_header (PyStr.strip line) = Some k).

(** ** A small concrete library and engine, to run the pipeline on

    A board is the list of the moves played, a move is a character code,
    a game text is the string of its moves ([*] alone: a game without
    moves; blank text: no game). The engine knows three positions. *)

Module Toy.

Definition toy_turn (b : list nat) : Color := Nat.even (length b).

Definition toy_name (m : nat) : string := String (ascii_of_nat m) EmptyString.

Definition toy_read_game (text : string) : option (list nat) :=
  match PyStr.strip text with
  | EmptyString => None
  | "*" => Some []
  | s => Some (map nat_of_ascii (list_ascii_of_string s))
  end.

#[export] Instance toy_lib : ChessLib.
Proof.
  refine {| Board := list nat;
            Move := nat;
            Game := list nat;
            board_turn := toy_turn;
            board_push := fun b m => b ++ [m];
            board_fen := fun b => String.concat "/" (map toy_name b);
            board_fullmove_number := fun b => Z.of_nat (length b / 2) + 1;
            board_san := fun _ m => toy_name m;
            move_uci := toy_name;
            read_game := toy_read_game;
            game_board := fun _ => [];
            game_mainline := fun g => g |}.
  - intros b m. unfold toy_turn.
    rewrite length_app, Nat.add_1_r, Nat.even_succ, <- Nat.negb_even.
    reflexivity.
  - reflexivity.
Defined.

(** The engine's answer: the score relative to the side to move. *)
Definition toy_relative (b : list nat) : Score :=
  match b with
  | [] => Cp 50
  | [_] => Cp (-80)
  | [_; _] => Cp 300
  | _ => Mate 2
  end.

Definition toy_services : Services :=
  {| popen_uci := fun tr _ => inr (mkSimpleEngine (length tr));
     analyse := fun _ _ b _ =>
       inr {| info_score := Some (mkPovScore (toy_relative b) (toy_turn b));
              info_pv := [104%nat] |} |}.

Definition toy_engine : StockfishEngine :=
  {| stockfish_path := "stockfish"; depth := 18; engine := Some (mkSimpleEngine 0) |}.

Definition toy_analyzer (threshold : Threshold) : GameAnalyzer :=
  {| analyzer_engine := toy_engine;
     explainer := MockExplainer;
     blunder_threshold := threshold |}.

Definition toy_run (threshold : Threshold) (text color : string) :=
  analyze_pgn toy_services (toy_analyzer threshold) text color [].

Definition toy_mistakes (threshold : Threshold) (text color : string) :=
  mistakes_of (fst (toy_run threshold text color)).

(** White's first move [a]: 50 before, -80 after, a drop of 130. *)
Definition toy_white_blunder : AnalyzedMistake :=
  let mistake :=
    build_mistake ([] : Board) 97%nat (mkEvaluation 50 "h" "h") (mkEvaluation 80 "h" "h") in
  mkAnalyzedMistake mistake (mock_explanation mistake).

End Toy.

(** ** Further notions: the calls of a run, thresholds, the session *)

Section Calls.

Context `{lib : ChessLib}.

(** The boards the evaluator is asked about: for each move whose mover
    [target_color] selects, the board before it and the board after it. *)
Fixpoint selected_boards (target_color : string) (board : Board) (moves : list Move)
  : list Board :=
  match moves with
  | [] => []
  | move :: rest =>
      (if skipped target_color (color_name (board_turn board))
       then []
       else [board; board_push board move])
      ++ selected_boards target_color (board_push board move) rest
  end.

(** The evaluator calls and the explainer calls recorded in a trace. *)
Definition evaluated (evs : trace) : list Board :=
  flat_map (fun ev => match ev with EvEvaluate b => [b] | _ => [] end) evs.

Definition explained (evs : trace) : list Mistake :=
  flat_map (fun ev => match ev with EvExplain m => [m] | _ => [] end) evs.

(** The same analyzer with another threshold. *)
Definition with_threshold (self : GameAnalyzer) (threshold : Threshold) : GameAnalyzer :=
  {| analyzer_engine := analyzer_engine self;
     explainer := explainer self;
     blunder_threshold := threshold |}.

Definition drop_reaches (threshold : Threshold) (am : AnalyzedMistake) : bool :=
  int_ge_float (eval_drop_cp (the_mistake am)) threshold.

(** The record [am] is the one built for the move at index [ply] of
    [moves], played from [start], a move [target_color] selects. *)
Definition emitted_at_ply (target_color : string) (start : Board) (moves : list Move)
           (ply : nat) (am : AnalyzedMistake) : Prop :=
  exists move eval_before eval_after,
    moves !! ply = Some move /\
    skipped target_color (color_name (board_turn (replay (take ply moves) start))) = false /\
    the_mistake am =
    build_mistake (replay (take ply moves) start) move eval_before eval_after.

End Calls.

(** Two more analyzers on the small library: one whose engine was never
    started, one whose explainer fails. *)
Module ToyFailures.

Import Toy.

Definition unstarted_analyzer : GameAnalyzer :=
  {| analyzer_engine := StockfishEngine_init None 18;
     explainer := MockExplainer;
     blunder_threshold := Finite 100 |}.

Definition failing_explainer : LLMExplainer :=
  {| explain_mistake := fun _ _ => inl (ExternalError "backend unavailable") |}.

Definition unexplained_analyzer : GameAnalyzer :=
  {| analyzer_engine := toy_engine;
     explainer := failing_explainer;
     blunder_threshold := Finite 100 |}.

End ToyFailures.

(** *** On the evaluator and the session *)

(** A score as one number: its centipawns, or the sentinel 10000 with the
    sign of the side that mates. *)
Definition saturated (s : Score) : Z :=
  match Score_score s with
  | Some n => n
  | None => if mating s then 10000 else -10000
  end.

Section Session.

Context `{lib : ChessLib}.
Variable svc : Services.




End Session.

(** *** On the response parser: structured responses *)

Definition empty_explanation : Explanation := mkExplanation "" "" "" "".

(** A line that opens no section: it is blank or carries no label. *)
Definition plain (line : string) : bool :=
  negb (PyStr.truthy (PyStr.strip line)) ||
  match section_header (PyStr.strip line) with Some _ => false | None => true end.

(** A line that is blank or carries a label. *)
Definition blank_or_label (line : string) : bool :=
  negb (PyStr.truthy (PyStr.strip line)) ||
  match section_header (PyStr.strip line) with Some _ => true | None => false end.

Definition no_newline (s : string) : bool :=
  forallb (fun c => negb (Ascii.eqb c PyStr.newline)) (list_ascii_of_string s).

(** A line of content: not empty, on one line, without blanks around it
    and without a label in it. *)
Definition content_line (s : string) : bool :=
  PyStr.truthy s && no_newline s &&
  String.eqb (PyStr.lstrip s) s && String.eqb (PyStr.rstrip s) s &&
  match section_header s with Some _ => false | None => true end.

Definition join_lines (lines : list string) : string :=
  String.concat (String PyStr.newline EmptyString) lines.

(** A response in the layout the prompt asks for: each label on a line
    of its own, followed by the lines of its section and a blank line. *)
Definition structured_response (good failed concept pattern : list string) : string :=
  join_lines (["WHY IT LOOKED GOOD:"] ++ good ++ [""; "WHY IT FAILED:"] ++ failed ++
              [""; "CONCEPT:"] ++ concept ++ [""; "PATTERN:"] ++ pattern).

(** What [sections[key] += " " + line] builds from the value [old]. *)
Definition join_onto (old : string) (lines : list string) : string :=
  fold_left (fun acc line => if PyStr.truthy acc then acc +:+ (" " +:+ line) else line)
            lines old.

(** * Properties *)

(** ** The classifier *)

Lemma int_ge_float_reaches (x : Z) (t : Threshold) :
  int_ge_float x t = true <-> reaches x t.
Proof.
  destruct t as [q | | |]; simpl.
  - apply Qle_bool_iff.
  - split; [discriminate | contradiction].
  - split; auto.
  - split; [discriminate | contradiction].
Qed.

Lemma reaches_mono (x : Z) (t t' : Threshold) :
  Threshold_le t t' -> reaches x t' -> reaches x t.
Proof.
  destruct t as [q | | |], t' as [q' | | |]; simpl; try tauto.
  intros Hle Hx. eapply Qle_trans; eassumption.
Qed.

(** C5. [is_blunder] is decided by the drop alone: it answers true exactly
    when [eval_before.score_cp - eval_after.score_cp] reaches the
    threshold; hence a mistake at a threshold is a mistake at every lower
    one, and raising the threshold never creates a mistake. *)
Theorem is_blunder_iff_drop_reaches_threshold
        (eval_before eval_after : Evaluation) (threshold : Threshold) :
  (is_blunder eval_before eval_after threshold = true <->
   reaches (score_cp eval_before - score_cp eval_after) threshold) /\
  (forall raised : Threshold,
      Threshold_le threshold raised ->
      is_blunder eval_before eval_after raised = true ->
      is_blunder eval_before eval_after threshold = true) /\
  (forall raised : Threshold,
      Threshold_le threshold raised ->
      is_blunder eval_before eval_after threshold = false ->
      is_blunder eval_before eval_after raised = false).
Proof.
  unfold is_blunder. split; [apply int_ge_float_reaches |].
  assert (Hmono : forall raised, Threshold_le threshold raised ->
            int_ge_float (score_cp eval_before - score_cp eval_after) raised = true ->
            int_ge_float (score_cp eval_before - score_cp eval_after) threshold = true).
  { intros raised Hle Hb. apply int_ge_float_reaches.
    apply (reaches_mono _ _ _ Hle). apply int_ge_float_reaches, Hb. }
  split; [exact Hmono |].
  intros raised Hle Hno.
  destruct (int_ge_float _ raised) eqn:Hr; [| reflexivity].
  rewrite (Hmono raised Hle Hr) in Hno. discriminate.
Qed.

Lemma is_blunder_iff_drop_reaches_threshold_witness :
  is_blunder (mkEvaluation 50 "" "") (mkEvaluation (-80) "" "") (Finite 100) = true /\
  is_blunder (mkEvaluation 50 "" "") (mkEvaluation (-80) "" "") (Finite 150) = false.
Proof.
  split.
  - apply (proj1 (proj2 (is_blunder_iff_drop_reaches_threshold
                           (mkEvaluation 50 "" "") (mkEvaluation (-80) "" "") (Finite 100)))
                 (Finite 130)).
    + unfold Threshold_le, Qle; simpl; lia.
    + reflexivity.
  - apply (proj2 (proj2 (is_blunder_iff_drop_reaches_threshold
                           (mkEvaluation 50 "" "") (mkEvaluation (-80) "" "") (Finite 140)))
                 (Finite 150)).
    + unfold Threshold_le, Qle; simpl; lia.
    + reflexivity.
Defined.

(** ** The score conversion of the evaluator *)

(** On a centipawn score the conversion negates the engine's number exactly
    when Black is to move. *)
Lemma score_to_centipawns_cp (n : Z) (c board_turn : Color) :
  _score_to_centipawns (mkPovScore (Cp n) c) board_turn =
  if board_turn then n else - n.
Proof.
  unfold _score_to_centipawns, is_mate, or_zero; simpl.
  destruct board_turn; simpl.
  - destruct (Z.eqb_spec n 0); lia.
  - destruct (Z.eqb_spec (- n) 0); lia.
Qed.

(** The engine's number is taken from the point of view of the side to
    move (the [turn] of the [PovScore] is the board's), so what the
    conversion returns is the score from White's point of view. *)
Lemma score_to_centipawns_is_white_pov (s : PovScore) :
  is_mate s = false ->
  Some (_score_to_centipawns s (turn s)) = Score_score (white s).
Proof.
  destruct s as [[n | n |] c]; try discriminate. intros _.
  rewrite score_to_centipawns_cp. unfold white, pov; simpl.
  destruct c; reflexivity.
Qed.

Lemma score_to_centipawns_mate_magnitude (s : PovScore) (board_turn : Color) :
  is_mate s = true -> Z.abs (_score_to_centipawns s board_turn) = 10000.
Proof.
  destruct s as [[n | n |] c]; try discriminate; intros _;
    unfold _score_to_centipawns, is_mate; simpl;
    try destruct (0 <? n); destruct board_turn; reflexivity.
Qed.

(** What the move loop then computes as the drop of a move: the engine's
    scores before and after it, both from White's point of view, added,
    whoever the mover is. *)
Remark drop_adds_white_scores (before after : PovScore) (w w' : Z) :
  turn after = negb (turn before) ->
  Score_score (white before) = Some w ->
  Score_score (white after) = Some w' ->
  _score_to_centipawns before (turn before) -
  - _score_to_centipawns after (turn after) = w + w'.
Proof.
  assert (Hcp : forall s v, Score_score (white s) = Some v ->
                           exists n, relative s = Cp n /\
                                     v = if turn s then n else - n).
  { intros [[n | n |] c] v; unfold white, pov; destruct c; simpl;
      try discriminate; try (destruct (n =? 0); discriminate);
      intros [= <-]; eauto. }
  intros Hturn Hw Hw'.
  apply Hcp in Hw as (n & Hn & ->). apply Hcp in Hw' as (n' & Hn' & ->).
  destruct before as [r c], after as [r' c']; simpl in *; subst.
  rewrite !score_to_centipawns_cp. destruct c; simpl; lia.
Qed.

(** C3. With Black to move and the engine's score 50 centipawns in favour
    of the side to move, the stored score is -50: a positive score for
    the side to move is stored as a negative one. *)
Theorem score_to_centipawns_black_to_move :
  let score := mkPovScore (Cp 50) BLACK in
  Score_score (pov score BLACK) = Some 50 /\
  _score_to_centipawns score BLACK = -50.
Proof. split; reflexivity. Qed.

(** C4. With Black to move and the engine announcing that the side to move
    mates in 3, the stored sentinel is -10000: its magnitude is 10000 but
    its sign is the one of a lost position for the side to move. *)
Theorem score_to_centipawns_black_mates :
  let score := mkPovScore (Mate 3) BLACK in
  mating (pov score BLACK) = true /\
  _score_to_centipawns score BLACK = -10000.
Proof. split; reflexivity. Qed.

(** *** [evaluate] *)

Lemma evaluate_not_started `{lib : ChessLib} (svc : Services)
      (self : StockfishEngine) (board : Board) (tr : trace) :
  engine self = None ->
  evaluate svc self board tr =
  (inl (RuntimeError "Engine not started. Use context manager or call start()"),
   tr ++ [EvEvaluate board]).
Proof. intros Hnone. unfold evaluate. simpl. rewrite Hnone. reflexivity. Qed.

(** The stored score is the conversion of the engine's score at the
    board's side to move, and 0 when the engine gives no score. *)
Lemma evaluate_score `{lib : ChessLib} (svc : Services)
      (self : StockfishEngine) (board : Board) (tr : trace)
      (h : SimpleEngine) (info : InfoDict) :
  engine self = Some h ->
  analyse svc (tr ++ [EvEvaluate board]) h board (depth self) = inr info ->
  exists e,
    evaluate svc self board tr = (inr e, tr ++ [EvEvaluate board]) /\
    score_cp e =
    match info_score info with
    | Some score => _score_to_centipawns score (board_turn board)
    | None => 0
    end.
Proof.
  intros Hsome Hinfo. unfold evaluate. simpl. rewrite Hsome. simpl. rewrite Hinfo.
  destruct (info_pv info); eexists; split; reflexivity.
Qed.

(** ** The engine session *)


(** ** The move loop *)

Section Loop.

Context `{lib : ChessLib}.
Variable svc : Services.
Variable self : GameAnalyzer.

Abbreviation eng := (analyzer_engine self).
Abbreviation threshold := (blunder_threshold self).

Lemma bind_inr {A B} (c : M A) (k : A -> M B) tr b tr' :
  bind c k tr = (inr b, tr') ->
  exists a tr1, c tr = (inr a, tr1) /\ k a tr1 = (inr b, tr').
Proof.
  simpl. destruct (c tr) as [[e | a] tr1]; [discriminate |].
  intros Hk. exists a, tr1. split; [reflexivity | exact Hk].
Qed.

(** A call of [evaluate] adds exactly its own record to the trace,
    whether it returns or raises. *)
Lemma evaluate_trace board tr r tr' :
  evaluate svc eng board tr = (r, tr') -> tr' = tr ++ [EvEvaluate board].
Proof.
  unfold evaluate. simpl.
  destruct (engine eng) as [h |]; simpl; [| congruence].
  destruct (analyse svc _ h board (depth eng)) as [e | info]; [congruence |].
  destruct (info_pv info); simpl; congruence.
Qed.

Lemma loop_body_skipped target board mistakes move tr :
  skipped target (color_name (board_turn board)) = true ->
  loop_body svc self target (board, mistakes) move tr =
  (inr (board_push board move, mistakes), tr).
Proof. intros Hskip. unfold loop_body. rewrite Hskip. reflexivity. Qed.

(** What an iteration that is not skipped and returns has done. *)
Lemma loop_body_analysed target board mistakes move tr st' tr' :
  skipped target (color_name (board_turn board)) = false ->
  loop_body svc self target (board, mistakes) move tr = (inr st', tr') ->
  exists eval_before eval_after,
    let tr1 := tr ++ [EvEvaluate board] in
    let tr2 := tr1 ++ [EvEvaluate (board_push board move)] in
    let mistake := build_mistake board move eval_before eval_after in
    evaluate svc eng board tr = (inr eval_before, tr1) /\
    evaluate svc eng (board_push board move) tr1 = (inr eval_after, tr2) /\
    fst st' = board_push board move /\
    ((is_blunder eval_before (eval_after_flipped eval_after) threshold = false /\
      snd st' = mistakes /\ tr' = tr2)
     \/
     (is_blunder eval_before (eval_after_flipped eval_after) threshold = true /\
      exists explanation,
        explain_mistake (explainer self) tr2 mistake = inr explanation /\
        snd st' = mistakes ++ [mkAnalyzedMistake mistake explanation] /\
        tr' = tr2 ++ [EvExplain mistake])).
Proof.
  intros Hskip. unfold loop_body. rewrite Hskip.
  intros Hrun.
  apply bind_inr in Hrun as (e1 & tr1 & He1 & Hrun).
  apply bind_inr in Hrun as (e2 & tr2 & He2 & Hrun).
  pose proof (evaluate_trace _ _ _ _ He1) as ->.
  pose proof (evaluate_trace _ _ _ _ He2) as ->.
  exists e1, e2. cbv zeta.
  split; [exact He1 |]. split; [exact He2 |].
  destruct (is_blunder e1 (eval_after_flipped e2) threshold).
  - apply bind_inr in Hrun as (expl & tr3 & Hex & Hrun).
    simpl in Hex, Hrun.
    injection Hrun as <- <-. injection Hex as Hex <-.
    split; [reflexivity |]. right. split; [reflexivity |].
    exists expl. auto.
  - simpl in Hrun. injection Hrun as <- <-.
    split; [reflexivity |]. left. auto.
Qed.

(** The events of one iteration, whether it returns or raises: none when
    the mover is filtered out, and no evaluation of another board than
    the one before and the one after the move. *)
Lemma loop_body_events target board mistakes move tr r tr' :
  loop_body svc self target (board, mistakes) move tr = (r, tr') ->
  exists evs,
    tr' = tr ++ evs /\
    (skipped target (color_name (board_turn board)) = true -> evs = []) /\
    (forall b, In (EvEvaluate b) evs ->
               skipped target (color_name (board_turn board)) = false /\
               (b = board \/ b = board_push board move)).
Proof.
  unfold loop_body.
  destruct (skipped target (color_name (board_turn board))) eqn:Hskip.
  - simpl. intros [= <- <-]. exists []. rewrite app_nil_r.
    split; [reflexivity |]. split; [reflexivity |]. intros b [].
  - simpl.
    destruct (evaluate svc eng board tr) as [[e | e1] tr1] eqn:He1;
      pose proof (evaluate_trace _ _ _ _ He1) as ->.
    { intros [= <- <-]. exists [EvEvaluate board].
      split; [reflexivity |]. split; [discriminate |].
      intros b [[= <-] | []]. auto. }
    destruct (evaluate svc eng (board_push board move) _) as [[e | e2] tr2] eqn:He2;
      pose proof (evaluate_trace _ _ _ _ He2) as ->.
    { intros [= <- <-]. exists [EvEvaluate board; EvEvaluate (board_push board move)].
      rewrite <- app_assoc. split; [reflexivity |]. split; [discriminate |].
      intros b [[= <-] | [[= <-] | []]]; auto. }
    destruct (is_blunder e1 (eval_after_flipped e2) threshold); simpl.
    + set (m := build_mistake board move e1 e2).
      intros Hrun.
      exists [EvEvaluate board; EvEvaluate (board_push board move); EvExplain m].
      split.
      { destruct (explain_mistake (explainer self) _ m); injection Hrun as <- <-;
          rewrite <- !app_assoc; reflexivity. }
      split; [discriminate |].
      intros b [[= <-] | [[= <-] | [[=] | []]]]; auto.
    + intros [= <- <-]. exists [EvEvaluate board; EvEvaluate (board_push board move)].
      rewrite <- app_assoc. split; [reflexivity |]. split; [discriminate |].
      intros b [[= <-] | [[= <-] | []]]; auto.
Qed.

End Loop.

Section Run.

Context `{lib : ChessLib}.
Variable svc : Services.
Variable self : GameAnalyzer.

Abbreviation body := (loop_body svc self).

Lemma analysed_at_later target start move moves board move' :
  analysed_at target (board_push start move) moves board move' ->
  analysed_at target start (move :: moves) board move'.
Proof.
  intros (played & rest & -> & -> & Hsel).
  exists (move :: played), rest. auto.
Qed.

Lemma analysed_at_head target start move moves :
  skipped target (color_name (board_turn start)) = false ->
  analysed_at target start (move :: moves) start move.
Proof. intros Hsel. exists [], moves. auto. Qed.

Lemma emitted_at_later target start move moves am :
  emitted_at svc self target (board_push start move) moves am ->
  emitted_at svc self target start (move :: moves) am.
Proof.
  intros (board & move' & e1 & e2 & tr & Hat & Hrest).
  exists board, move', e1, e2, tr. split; [apply analysed_at_later, Hat | exact Hrest].
Qed.

Lemma loop_body_board target board mistakes move tr board' mistakes' tr' :
  body target (board, mistakes) move tr = (inr (board', mistakes'), tr') ->
  board' = board_push board move.
Proof.
  intros Hbody.
  destruct (skipped target (color_name (board_turn board))) eqn:Hskip.
  - rewrite loop_body_skipped in Hbody by exact Hskip. congruence.
  - apply loop_body_analysed in Hbody as (e1 & e2 & _ & _ & Hb1 & _); auto.
Qed.

(** The loop replays the whole game and only appends to the list; what
    it appends was emitted for a selected move of the game. *)
Lemma for_each_emitted target moves : forall board mistakes tr board' mistakes' tr',
  for_each (body target) moves (board, mistakes) tr = (inr (board', mistakes'), tr') ->
  board' = replay moves board /\
  exists new,
    mistakes' = mistakes ++ new /\
    Forall (emitted_at svc self target board moves) new.
Proof.
  induction moves as [| move moves IH]; intros board mistakes tr board' mistakes' tr' Hrun.
  - injection Hrun as <- <- <-. split; [reflexivity |].
    exists []. rewrite app_nil_r. auto.
  - simpl for_each in Hrun.
    apply bind_inr in Hrun as ([b1 m1] & tr1 & Hbody & Hrest).
    pose proof (loop_body_board _ _ _ _ _ _ _ _ Hbody) as ->.
    apply IH in Hrest as (-> & new & -> & Hnew).
    assert (Hlater : Forall (emitted_at svc self target board (move :: moves)) new).
    { eapply Forall_impl; [exact Hnew |].
      intros am Ham. apply emitted_at_later, Ham. }
    destruct (skipped target (color_name (board_turn board))) eqn:Hskip.
    + rewrite loop_body_skipped in Hbody by exact Hskip.
      injection Hbody as <- <-. split; [reflexivity |].
      exists new. auto.
    + apply loop_body_analysed in Hbody
        as (e1 & e2 & He1 & He2 & _ & [(Hno & Hm1 & _) | (Hyes & expl & Hex & Hm1 & _)]);
        [| | exact Hskip]; simpl in Hm1; subst m1.
      * split; [reflexivity |]. exists new. auto.
      * split; [reflexivity |].
        exists (mkAnalyzedMistake (build_mistake board move e1 e2) expl :: new).
        rewrite <- app_assoc. split; [reflexivity |].
        constructor; [| exact Hlater].
        exists board, move, e1, e2, tr. cbv zeta. simpl.
        auto 10 using analysed_at_head.
Qed.

(** Whether the loop returns or raises, the evaluator was called on no
    other board than the one before and the one after a selected move. *)
Lemma for_each_events target moves : forall board mistakes tr r tr',
  for_each (body target) moves (board, mistakes) tr = (r, tr') ->
  exists evs,
    tr' = tr ++ evs /\
    forall b, In (EvEvaluate b) evs ->
              exists board_before move,
                analysed_at target board moves board_before move /\
                (b = board_before \/ b = board_push board_before move).
Proof.
  induction moves as [| move moves IH]; intros board mistakes tr r tr' Hrun.
  - injection Hrun as <- <-. exists []. rewrite app_nil_r. split; [reflexivity |].
    intros b [].
  - simpl for_each in Hrun. unfold bind in Hrun.
    destruct (body target (board, mistakes) move tr) as [[e | [b1 m1]] tr1] eqn:Hbody.
    + injection Hrun as <- <-.
      apply loop_body_events in Hbody as (evs & -> & _ & Hevs).
      exists evs. split; [reflexivity |].
      intros b Hin. apply Hevs in Hin as (Hsel & Hb).
      exists board, move. auto using analysed_at_head.
    + pose proof (loop_body_board _ _ _ _ _ _ _ _ Hbody) as ->.
      apply loop_body_events in Hbody as (evs & -> & _ & Hevs).
      apply IH in Hrun as (evs' & -> & Hevs').
      exists (evs ++ evs'). rewrite app_assoc. split; [reflexivity |].
      intros b Hin. apply in_app_or in Hin as [Hin | Hin].
      * apply Hevs in Hin as (Hsel & Hb).
        exists board, move. auto using analysed_at_head.
      * apply Hevs' in Hin as (bb & mv & Hat & Hb).
        exists bb, mv. auto using analysed_at_later.
Qed.

End Run.

Section Filter.

Context `{lib : ChessLib}.
Variable svc : Services.
Variable self : GameAnalyzer.
Hypothesis Hdet : deterministic svc self.

Lemma skipped_both color : skipped "both" color = false.
Proof. reflexivity. Qed.

Lemma skipped_target target color :
  target <> "both" -> skipped target color = negb (String.eqb target color).
Proof.
  intros Hne. unfold skipped.
  destruct (String.eqb_spec target "both"); [contradiction | reflexivity].
Qed.

Lemma evaluate_deterministic board tr1 tr2 r tr1' :
  evaluate svc (analyzer_engine self) board tr1 = (r, tr1') ->
  evaluate svc (analyzer_engine self) board tr2 = (r, tr2 ++ [EvEvaluate board]).
Proof using Hdet.
  unfold evaluate. simpl.
  destruct (engine (analyzer_engine self)) as [h |]; simpl;
    [| intros [= <- <-]; reflexivity].
  rewrite (proj1 Hdet (tr2 ++ [EvEvaluate board]) (tr1 ++ [EvEvaluate board])).
  destruct (analyse svc _ h board _) as [e | info];
    [intros [= <- <-]; reflexivity |].
  destruct (info_pv info); simpl; intros [= <- <-]; reflexivity.
Qed.

(** A run restricted to one colour returns the mistakes of that colour
    of the unrestricted run, in the same order. *)
Lemma for_each_filter target :
  target <> "both" ->
  forall moves board mistakes tr board' mistakes' tr' trw,
    for_each (loop_body svc self "both") moves (board, mistakes) tr =
    (inr (board', mistakes'), tr') ->
    exists trw',
      for_each (loop_body svc self target) moves
               (board, List.filter (moved_by target) mistakes) trw =
      (inr (board', List.filter (moved_by target) mistakes'), trw').
Proof using Hdet.
  intros Hne.
  induction moves as [| move moves IH];
    intros board mistakes tr board' mistakes' tr' trw Hrun.
  - injection Hrun as <- <- <-. exists trw. reflexivity.
  - simpl for_each in Hrun.
    apply bind_inr in Hrun as ([b1 m1] & tr1 & Hbody & Hrest).
    apply loop_body_analysed in Hbody
      as (e1 & e2 & He1 & He2 & Hb1 & Hcases); [| apply skipped_both].
    simpl in Hb1. subst b1.
    simpl for_each.
    destruct (skipped target (color_name (board_turn board))) eqn:Hskip.
    + rewrite loop_body_skipped by exact Hskip.
      assert (Hm1 : List.filter (moved_by target) m1 = List.filter (moved_by target) mistakes).
      { destruct Hcases as [(_ & Hm1 & _) | (_ & expl & _ & Hm1 & _)];
          simpl in Hm1; subst m1; [reflexivity |].
        rewrite List.filter_app. simpl.
        rewrite skipped_target in Hskip by exact Hne.
        unfold moved_by at 2. simpl.
        rewrite String.eqb_sym.
        apply negb_true_iff in Hskip. rewrite Hskip. apply app_nil_r. }
      rewrite <- Hm1. eapply IH. exact Hrest.
    + unfold loop_body. rewrite Hskip. simpl.
      rewrite (evaluate_deterministic _ _ trw _ _ He1). simpl.
      rewrite (evaluate_deterministic _ _ (trw ++ [EvEvaluate board]) _ _ He2). simpl.
      destruct Hcases as [(Hno & Hm1 & _) | (Hyes & expl & Hex & Hm1 & _)];
        simpl in Hm1; subst m1.
      * rewrite Hno. simpl. eapply IH. exact Hrest.
      * rewrite Hyes. simpl.
        rewrite (proj2 Hdet _ ((tr ++ [EvEvaluate board]) ++ [EvEvaluate (board_push board move)])).
        rewrite Hex.
        assert (Hkeep : List.filter (moved_by target)
                          (mistakes ++ [mkAnalyzedMistake (build_mistake board move e1 e2) expl]) =
                        List.filter (moved_by target) mistakes ++
                        [mkAnalyzedMistake (build_mistake board move e1 e2) expl]).
        { rewrite List.filter_app. simpl.
          rewrite skipped_target in Hskip by exact Hne.
          unfold moved_by at 2. simpl.
          rewrite String.eqb_sym.
          apply negb_false_iff in Hskip. rewrite Hskip. reflexivity. }
        rewrite <- Hkeep. eapply IH. exact Hrest.
Qed.

End Filter.

(** ** The pipeline, [analyze_pgn] *)

Section Analysis.

Context `{lib : ChessLib}.
Variable svc : Services.
Variable self : GameAnalyzer.

Lemma analyze_pgn_emitted text target tr mistakes tr' :
  analyze_pgn svc self text target tr = (inr mistakes, tr') ->
  exists game,
    read_game text = Some game /\
    Forall (emitted_at svc self target (game_board game) (game_mainline game)) mistakes.
Proof.
  unfold analyze_pgn. destruct (read_game text) as [game |]; [| discriminate].
  intros Hrun. apply bind_inr in Hrun as ([b ms] & tr1 & Hloop & Hret).
  injection Hret as <- <-.
  apply for_each_emitted in Hloop as (_ & new & -> & Hnew).
  exists game. auto.
Qed.

Lemma analyze_pgn_events text target tr r tr' :
  analyze_pgn svc self text target tr = (r, tr') ->
  exists evs,
    tr' = tr ++ evs /\
    forall b, In (EvEvaluate b) evs ->
              exists game board move,
                read_game text = Some game /\
                analysed_at target (game_board game) (game_mainline game) board move /\
                (b = board \/ b = board_push board move).
Proof.
  unfold analyze_pgn. destruct (read_game text) as [game |].
  - simpl.
    destruct (for_each _ _ _ tr) as [res tr1] eqn:Hloop.
    apply for_each_events in Hloop as (evs & -> & Hevs).
    intros Hrun. exists evs. split.
    + destruct res; injection Hrun as <- <-; reflexivity.
    + intros b Hin. apply Hevs in Hin as (board & move & Hat & Hb).
      exists game, board, move. auto.
  - intros [= <- <-]. exists []. rewrite app_nil_r. split; [reflexivity |].
    intros b [].
Qed.

Lemma color_name_negb c : color_name (negb c) <> color_name c.
Proof. destruct c; discriminate. Qed.

Lemma selected_white c : skipped "white" (color_name c) = false -> c = WHITE.
Proof. destruct c; [reflexivity | discriminate]. Qed.

End Analysis.

(** C1. In every [Mistake] a run of [analyze_pgn] returns, the stored
    [eval_drop_cp] is [evaluation_before.score_cp - evaluation_after.score_cp],
    where [evaluation_after] is the negated evaluation of the position
    after the move, and it reaches the threshold of the analyzer. *)
Theorem emitted_mistake_drop_consistent `{lib : ChessLib}
        (svc : Services) (self : GameAnalyzer) (text target : string)
        (tr tr' : trace) (mistakes : list AnalyzedMistake) (am : AnalyzedMistake) :
  analyze_pgn svc self text target tr = (inr mistakes, tr') ->
  In am mistakes ->
  let m := the_mistake am in
  eval_drop_cp m = score_cp (evaluation_before m) - score_cp (evaluation_after m) /\
  reaches (eval_drop_cp m) (blunder_threshold self) /\
  exists board move eval_after_raw tr1 tr2,
    evaluate svc (analyzer_engine self) (board_push board move) tr1 =
    (inr eval_after_raw, tr2) /\
    evaluation_after m = eval_after_flipped eval_after_raw.
Proof.
  intros Hrun Hin.
  apply analyze_pgn_emitted in Hrun as (game & _ & Hall).
  apply (proj1 (List.Forall_forall _ _) Hall) in Hin
    as (board & move & e1 & e2 & tr0 & _ & _ & He2 & Hm & _ & Hb).
  cbv zeta. rewrite Hm. simpl.
  split; [reflexivity |]. split.
  - apply int_ge_float_reaches. exact Hb.
  - exists board, move, e2. eexists. eexists. split; [exact He2 | reflexivity].
Qed.

(** C10. In every [Mistake] returned, [position_after_move] carries the
    move number and the colour of [position_before_move]: the full-move
    number of the board before the move and the name of its side to move,
    although on the board after the move the other side is to move. The
    two records differ in the FEN only, each holding the one of its board. *)
Theorem emitted_positions_share_mover_and_number `{lib : ChessLib}
        (svc : Services) (self : GameAnalyzer) (text target : string)
        (tr tr' : trace) (mistakes : list AnalyzedMistake) (am : AnalyzedMistake) :
  analyze_pgn svc self text target tr = (inr mistakes, tr') ->
  In am mistakes ->
  let before := position_before_move (the_mistake am) in
  let after := position_after_move (the_mistake am) in
  move_number after = move_number before /\
  player_color after = player_color before /\
  exists game board move,
    read_game text = Some game /\
    analysed_at target (game_board game) (game_mainline game) board move /\
    before = mkPosition (board_fen board) (board_fullmove_number board)
                        (color_name (board_turn board)) /\
    after = mkPosition (board_fen (board_push board move)) (board_fullmove_number board)
                       (color_name (board_turn board)) /\
    color_name (board_turn (board_push board move)) <> player_color after.
Proof.
  intros Hrun Hin.
  apply analyze_pgn_emitted in Hrun as (game & Hgame & Hall).
  apply (proj1 (List.Forall_forall _ _) Hall) in Hin
    as (board & move & e1 & e2 & tr0 & Hat & _ & _ & Hm & _).
  cbv zeta. rewrite Hm. simpl.
  split; [reflexivity |]. split; [reflexivity |].
  exists game, board, move.
  repeat (split; [first [exact Hgame | exact Hat | reflexivity] |]).
  rewrite push_turn. apply color_name_negb.
Qed.

(** C7. A text that [read_game] does not turn into a game, the empty text
    among them, makes [analyze_pgn] raise its [ValueError] with the trace
    unchanged: no evaluator call, no explainer call, no list. A game
    without moves gives the empty list, with the trace unchanged too. *)
Theorem unparseable_game_raises_before_analysis `{lib : ChessLib}
        (svc : Services) (self : GameAnalyzer) (text target : string) (tr : trace) :
  (read_game text = None ->
   analyze_pgn svc self text target tr =
   (inl (ValueError "Invalid PGN: could not parse game"), tr)) /\
  analyze_pgn svc self "" target tr =
  (inl (ValueError "Invalid PGN: could not parse game"), tr) /\
  (forall game, read_game text = Some game -> game_mainline game = [] ->
                analyze_pgn svc self text target tr = (inr [], tr)).
Proof.
  unfold analyze_pgn. split; [| split].
  - intros ->. reflexivity.
  - rewrite read_game_empty. reflexivity.
  - intros game -> ->. reflexivity.
Qed.


(** C6. With [target_color = 'white']: every mistake returned has
    [player_color = 'white'] in both positions; when the engine and the
    explainer are deterministic, the run returns the white-mover mistakes
    of the ['both'] run on the same text, in the same order; an iteration
    on a board with Black to move only pushes the move, leaving list and
    trace as they are; and, whether the run returns or raises, every
    evaluator call is on the board before or after a move of White. *)
Theorem white_filter_exact_and_cheap `{lib : ChessLib}
        (svc : Services) (self : GameAnalyzer) (text : string) (tr : trace) :
  (forall mistakes tr',
      analyze_pgn svc self text "white" tr = (inr mistakes, tr') ->
      Forall (fun am =>
                player_color (position_before_move (the_mistake am)) = "white" /\
                player_color (position_after_move (the_mistake am)) = "white")
             mistakes) /\
  (deterministic svc self ->
   forall all tr_both tr_both',
     analyze_pgn svc self text "both" tr_both = (inr all, tr_both') ->
     exists tr',
       analyze_pgn svc self text "white" tr =
       (inr (List.filter (moved_by "white") all), tr')) /\
  (forall board mistakes move,
      board_turn board = BLACK ->
      loop_body svc self "white" (board, mistakes) move tr =
      (inr (board_push board move, mistakes), tr)) /\
  (forall r tr',
      analyze_pgn svc self text "white" tr = (r, tr') ->
      exists evs,
        tr' = tr ++ evs /\
        forall b, In (EvEvaluate b) evs ->
                  exists game played move rest,
                    read_game text = Some game /\
                    game_mainline game = played ++ move :: rest /\
                    board_turn (replay played (game_board game)) = WHITE /\
                    (b = replay played (game_board game) \/
                     b = board_push (replay played (game_board game)) move)).
Proof.
  split; [| split; [| split]].
  - intros mistakes tr' Hrun.
    apply analyze_pgn_emitted in Hrun as (game & _ & Hall).
    eapply Forall_impl; [exact Hall |].
    intros am (board & move & e1 & e2 & tr0 &
               (played & rest & _ & _ & Hsel) & _ & _ & Hm & _).
    rewrite Hm. simpl. rewrite (selected_white _ Hsel). split; reflexivity.
  - intros Hdet all tr_both tr_both'. unfold analyze_pgn.
    destruct (read_game text) as [game |]; [| discriminate].
    intros Hrun. apply bind_inr in Hrun as ([b ms] & tr1 & Hloop & Hret).
    injection Hret as <- <-.
    eapply (for_each_filter svc self Hdet "white") with (trw := tr) in Hloop
      as (trw' & Hwhite); [| discriminate].
    exists trw'. simpl in Hwhite |- *. rewrite Hwhite. reflexivity.
  - intros board mistakes move Hturn.
    apply loop_body_skipped. rewrite Hturn. reflexivity.
  - intros r tr' Hrun.
    apply analyze_pgn_events in Hrun as (evs & -> & Hevs).
    exists evs. split; [reflexivity |].
    intros b Hin.
    apply Hevs in Hin as (game & board & move & Hgame & (played & rest & Hml & -> & Hsel) & Hb).
    exists game, played, move, rest.
    split; [exact Hgame |]. split; [exact Hml |].
    split; [apply selected_white, Hsel | exact Hb].
Qed.

(** ** The response parser *)

Section Parser.

Lemma section_header_key line k : section_header line = Some k -> is_key k.
Proof.
  unfold section_header, is_key.
  repeat match goal with |- context [if ?b then _ else _] => destruct b end;
    intros [= <-]; auto.
Qed.

Lemma initial_well_keyed : well_keyed (initial_sections, None).
Proof.
  split; [| discriminate].
  intros k [-> | [-> | [-> | ->]]]; vm_compute; eauto.
Qed.

Lemma initial_untouched k : is_key k -> untouched k (initial_sections, None).
Proof.
  intros Hk. split; [discriminate |].
  destruct Hk as [-> | [-> | [-> | ->]]]; vm_compute; reflexivity.
Qed.

Lemma parse_line_well_keyed st line :
  well_keyed st -> exists st', parse_line st line = inr st' /\ well_keyed st'.
Proof.
  destruct st as [sections cs]. intros [Hkeys Hcs]. simpl in Hkeys, Hcs.
  unfold parse_line.
  destruct (PyStr.truthy (PyStr.strip line)); simpl;
    [| exists (sections, cs); split; [reflexivity | split; assumption]].
  destruct (section_header (PyStr.strip line)) as [key |] eqn:Hhead.
  { exists (sections, Some key). split; [reflexivity |].
    split; [assumption |]. simpl. intros k [= <-].
    eapply section_header_key, Hhead. }
  destruct cs as [key |];
    [| exists (sections, None); split; [reflexivity | split; assumption]].
  destruct (PyStr.truthy key);
    [| exists (sections, Some key); split; [reflexivity | split; assumption]].
  destruct (Hkeys key (Hcs key eq_refl)) as [old Hold].
  unfold getitem. rewrite Hold.
  destruct (PyStr.truthy old); eexists; (split; [reflexivity |]);
    (split; [| assumption]); simpl; intros k Hk;
    apply lookup_insert_is_Some; destruct (decide (key = k)); auto.
Qed.

Lemma parse_lines_well_keyed lines : forall st,
  well_keyed st -> exists st', parse_lines lines st = inr st' /\ well_keyed st'.
Proof.
  induction lines as [| line lines IH]; intros st Hst.
  - exists st. auto.
  - destruct (parse_line_well_keyed st line Hst) as (st1 & Hline & Hst1).
    simpl. rewrite Hline. apply IH, Hst1.
Qed.

Lemma parse_line_untouched k st line st' :
  untouched k st -> opens k line = false ->
  parse_line st line = inr st' -> untouched k st'.
Proof.
  destruct st as [sections cs]. intros [Hcs Hk]. simpl in Hcs, Hk.
  unfold opens, parse_line.
  destruct (PyStr.truthy (PyStr.strip line)); simpl;
    [| intros _ [= <-]; split; assumption].
  intros Hopen. apply bool_decide_eq_false in Hopen.
  destruct (section_header (PyStr.strip line)) as [key |].
  { intros [= <-]. split; [exact Hopen | assumption]. }
  destruct cs as [key |]; [| intros [= <-]; split; assumption].
  destruct (PyStr.truthy key); [| intros [= <-]; split; assumption].
  assert (Hne : key <> k) by congruence.
  unfold getitem. destruct (sections !! key) as [old |]; [| discriminate].
  destruct (PyStr.truthy old); intros [= <-]; (split; [assumption |]); simpl;
    rewrite lookup_insert_ne by exact Hne; exact Hk.
Qed.

Lemma parse_lines_untouched k lines : forall st st',
  untouched k st -> existsb (opens k) lines = false ->
  parse_lines lines st = inr st' -> untouched k st'.
Proof.
  induction lines as [| line lines IH]; intros st st' Hst Hno.
  - intros [= <-]. exact Hst.
  - simpl in Hno. apply orb_false_iff in Hno as [Hline Hrest].
    simpl. destruct (parse_line st line) as [e | st1] eqn:Hstep; [discriminate |].
    apply IH; [| exact Hrest].
    eapply parse_line_untouched; eassumption.
Qed.

Lemma section_missing_no_opening k response :
  section_missing k response = true ->
  existsb (opens k) (response_lines response) = false.
Proof.
  unfold section_missing. generalize (response_lines response) as lines.
  induction lines as [| line lines IH]; [reflexivity |].
  simpl. intros Hall. apply andb_true_iff in Hall as [Hline Hrest].
  rewrite (IH Hrest), orb_false_r. unfold opens.
  destruct (PyStr.truthy (PyStr.strip line)); simpl in *; [| reflexivity].
  apply negb_true_iff, Hline.
Qed.

End Parser.

(** C8. [_parse_response] returns an [Explanation] on every string, and no
    [KeyError] or other exception; a section that no line of the response
    opens (its label, compared in upper case, is absent or not
    recognised) leaves its field the empty string. *)
Theorem parse_response_total_and_tolerant (response : string) :
  exists explanation,
    _parse_response response = inr explanation /\
    (section_missing "why_looked_good" response = true -> why_good explanation = "") /\
    (section_missing "why_failed" response = true -> why_failed explanation = "") /\
    (section_missing "concept_involved" response = true ->
     concept_involved explanation = "") /\
    (section_missing "typical_pattern" response = true ->
     typical_pattern explanation = "").
Proof.
  unfold _parse_response.
  destruct (parse_lines_well_keyed (response_lines response) _ initial_well_keyed)
    as ([sections cs] & Hrun & Hkeys & _).
  rewrite Hrun. simpl in Hkeys.
  assert (Hfield : forall k, is_key k -> section_missing k response = true ->
                             sections !! k = Some "").
  { intros k Hk Hmiss.
    apply (parse_lines_untouched k _ _ (sections, cs) (initial_untouched k Hk)
             (section_missing_no_opening _ _ Hmiss) Hrun). }
  unfold getitem.
  destruct (Hkeys "why_looked_good") as [good Hgood]; [unfold is_key; auto |].
  destruct (Hkeys "why_failed") as [failed Hfailed]; [unfold is_key; auto |].
  destruct (Hkeys "concept_involved") as [concept Hconcept]; [unfold is_key; auto |].
  destruct (Hkeys "typical_pattern") as [pattern Hpattern]; [unfold is_key; auto |].
  rewrite Hgood, Hfailed, Hconcept, Hpattern.
  eexists. split; [reflexivity |]. simpl.
  repeat split; intros Hmiss; apply Hfield in Hmiss; unfold is_key; auto; congruence.
Qed.

(** Labels are recognised whatever their case, and anywhere in the line. *)
Example section_header_any_case :
  section_header "2. Why it Failed -" = Some "why_failed" /\
  section_header "the concept:" = Some "concept_involved" /\
  section_header "Summary" = None.
Proof. repeat split. Qed.

Lemma parse_response_total_and_tolerant_witness :
  exists explanation,
    _parse_response sample_response = inr explanation /\
    why_good explanation = "It wins a pawn." /\
    concept_involved explanation = "" /\
    typical_pattern explanation = "".
Proof.
  destruct (parse_response_total_and_tolerant sample_response)
    as (explanation & Hrun & _ & _ & Hconcept & Hpattern).
  exists explanation. split; [exact Hrun |]. split.
  - vm_compute in Hrun. injection Hrun as <-. reflexivity.
  - split; [apply Hconcept | apply Hpattern]; vm_compute; reflexivity.
Defined.

(** ** The theorems at work on the small library *)

Import Toy.

Example toy_white_run :
  toy_run (Finite 100) "a" "white" =
  (inr [toy_white_blunder],
   [EvEvaluate ([] : Board); EvEvaluate ([97%nat] : Board);
    EvExplain (the_mistake toy_white_blunder)]).
Proof. reflexivity. Qed.

(** A threshold of 150 keeps the same move out; the evaluator is called
    all the same. *)
Example toy_white_run_150 :
  toy_run (Finite 150) "a" "white" =
  (inr [], [EvEvaluate ([] : Board); EvEvaluate ([97%nat] : Board)]).
Proof. reflexivity. Qed.

Lemma emitted_mistake_drop_consistent_witness :
  eval_drop_cp (the_mistake toy_white_blunder) = 50 - (-80) /\
  reaches (eval_drop_cp (the_mistake toy_white_blunder)) (Finite 100).
Proof.
  destruct (emitted_mistake_drop_consistent
              toy_services (toy_analyzer (Finite 100)) "a" "white"
              [] (snd (toy_run (Finite 100) "a" "white"))
              [toy_white_blunder] toy_white_blunder)
    as (Hdrop & Hreach & _).
  - reflexivity.
  - left. reflexivity.
  - split; [exact Hdrop | exact Hreach].
Defined.

Lemma emitted_positions_share_mover_and_number_witness :
  move_number (position_after_move (the_mistake toy_white_blunder)) = 1 /\
  player_color (position_after_move (the_mistake toy_white_blunder)) = "white" /\
  fen (position_after_move (the_mistake toy_white_blunder)) <>
  fen (position_before_move (the_mistake toy_white_blunder)).
Proof.
  destruct (emitted_positions_share_mover_and_number
              toy_services (toy_analyzer (Finite 100)) "a" "white"
              [] (snd (toy_run (Finite 100) "a" "white"))
              [toy_white_blunder] toy_white_blunder)
    as (Hnumber & Hcolor & _).
  - reflexivity.
  - left. reflexivity.
  - split; [rewrite Hnumber; reflexivity |].
    split; [rewrite Hcolor; reflexivity | discriminate].
Defined.


Lemma white_filter_exact_and_cheap_witness :
  length (toy_mistakes (Finite 100) "ab" "both") = 2%nat /\
  exists tr',
    toy_run (Finite 100) "ab" "white" =
    (inr (List.filter (moved_by "white") (toy_mistakes (Finite 100) "ab" "both")), tr').
Proof.
  split; [reflexivity |].
  apply (proj1 (proj2 (white_filter_exact_and_cheap
                         toy_services (toy_analyzer (Finite 100)) "ab" []))
           ltac:(split; intros; reflexivity)
           (toy_mistakes (Finite 100) "ab" "both") []
           (snd (toy_run (Finite 100) "ab" "both"))).
  reflexivity.
Defined.

Lemma unparseable_game_raises_before_analysis_witness :
  toy_run (Finite 100) "  " "both" =
  (inl (ValueError "Invalid PGN: could not parse game"), []) /\
  toy_run (Finite 100) "*" "both" = (inr [], []).
Proof.
  destruct (unparseable_game_raises_before_analysis
              toy_services (toy_analyzer (Finite 100)) "  " "both" [])
    as (Hnone & _ & _).
  destruct (unparseable_game_raises_before_analysis
              toy_services (toy_analyzer (Finite 100)) "*" "both" [])
    as (_ & _ & Hempty).
  split.
  - apply Hnone. reflexivity.
  - apply (Hempty ([] : list nat)); reflexivity.
Defined.

(** * Further properties *)

(** ** The calls of a run *)

Section CallLog.

Context `{lib : ChessLib}.
Variable svc : Services.
Variable self : GameAnalyzer.

Lemma evaluated_app (evs evs' : trace) :
  evaluated (evs ++ evs') = evaluated evs ++ evaluated evs'.
Proof. apply List.flat_map_app. Qed.

Lemma explained_app (evs evs' : trace) :
  explained (evs ++ evs') = explained evs ++ explained evs'.
Proof. apply List.flat_map_app. Qed.

Lemma for_each_calls target moves : forall board mistakes tr board' mistakes' tr',
  for_each (loop_body svc self target) moves (board, mistakes) tr =
  (inr (board', mistakes'), tr') ->
  exists evs new,
    tr' = tr ++ evs /\
    mistakes' = mistakes ++ new /\
    evaluated evs = selected_boards target board moves /\
    explained evs = map the_mistake new.
Proof.
  induction moves as [| move moves IH]; intros board mistakes tr board' mistakes' tr' Hrun.
  - injection Hrun as <- <- <-. exists [], []. rewrite !app_nil_r. auto.
  - simpl for_each in Hrun.
    apply bind_inr in Hrun as ([b1 m1] & tr1 & Hbody & Hrest).
    pose proof (loop_body_board _ _ _ _ _ _ _ _ _ _ Hbody) as ->.
    apply IH in Hrest as (evs & new & -> & -> & Hev & Hex).
    simpl selected_boards.
    destruct (skipped target (color_name (board_turn board))) eqn:Hskip.
    + rewrite loop_body_skipped in Hbody by exact Hskip.
      injection Hbody as <- <-. exists evs, new. auto.
    + apply loop_body_analysed in Hbody
        as (e1 & e2 & _ & _ & _ & [(_ & Hm1 & ->) | (_ & expl & _ & Hm1 & ->)]);
        [| | exact Hskip]; simpl in Hm1; subst m1.
      * exists ([EvEvaluate board; EvEvaluate (board_push board move)] ++ evs), new.
        rewrite evaluated_app, explained_app, Hev, Hex, <- !app_assoc. auto.
      * exists ([EvEvaluate board; EvEvaluate (board_push board move);
                 EvExplain (build_mistake board move e1 e2)] ++ evs),
               (mkAnalyzedMistake (build_mistake board move e1 e2) expl :: new).
        rewrite evaluated_app, explained_app, Hev, Hex, <- !app_assoc. auto.
Qed.


Lemma selected_boards_both board moves :
  length (selected_boards "both" board moves) = (2 * length moves)%nat.
Proof.
  revert board. induction moves as [| move moves IH]; intros board; [reflexivity |].
  simpl. rewrite IH. lia.
Qed.

Lemma for_each_all_skipped target moves :
  (forall c, skipped target (color_name c) = true) ->
  forall board mistakes tr,
    for_each (loop_body svc self target) moves (board, mistakes) tr =
    (inr (replay moves board, mistakes), tr).
Proof.
  intros Hskip. induction moves as [| move moves IH]; intros board mistakes tr;
    [reflexivity |].
  simpl for_each. simpl. rewrite loop_body_skipped by apply Hskip. apply IH.
Qed.

Lemma emitted_at_ply_later target start move moves ply am :
  emitted_at_ply target (board_push start move) moves ply am ->
  emitted_at_ply target start (move :: moves) (S ply) am.
Proof. intros (mv & e1 & e2 & Hmv & Hsel & Hm). exists mv, e1, e2. auto. Qed.

(** The loop appends at most one record per move, in the order of the
    moves. *)
Lemma for_each_ordered target moves : forall board mistakes tr board' mistakes' tr',
  for_each (loop_body svc self target) moves (board, mistakes) tr =
  (inr (board', mistakes'), tr') ->
  exists plies new,
    mistakes' = mistakes ++ new /\
    StronglySorted lt plies /\
    Forall2 (emitted_at_ply target board moves) plies new /\
    (length new <= length moves)%nat.
Proof.
  induction moves as [| move moves IH]; intros board mistakes tr board' mistakes' tr' Hrun.
  - injection Hrun as <- <- <-. exists [], []. rewrite app_nil_r.
    repeat split; constructor.
  - simpl for_each in Hrun.
    apply bind_inr in Hrun as ([b1 m1] & tr1 & Hbody & Hrest).
    pose proof (loop_body_board _ _ _ _ _ _ _ _ _ _ Hbody) as ->.
    apply IH in Hrest as (plies & new & -> & Hsorted & Hall & Hlen).
    assert (Hsorted' : StronglySorted lt (map S plies)).
    { clear -Hsorted. induction Hsorted as [| i l Hl IHl Hi]; simpl; constructor; auto.
      apply Forall_map. eapply Forall_impl; [exact Hi |]. simpl. intros; lia. }
    assert (Hall' : Forall2 (emitted_at_ply target board (move :: moves)) (map S plies) new).
    { clear -Hall. induction Hall; simpl; constructor; auto using emitted_at_ply_later. }
    destruct (skipped target (color_name (board_turn board))) eqn:Hskip.
    + rewrite loop_body_skipped in Hbody by exact Hskip.
      injection Hbody as <- <-. exists (map S plies), new. simpl. auto with lia.
    + apply loop_body_analysed in Hbody
        as (e1 & e2 & _ & _ & _ & [(_ & Hm1 & _) | (_ & expl & _ & Hm1 & _)]);
        [| | exact Hskip]; simpl in Hm1; subst m1.
      * exists (map S plies), new. simpl. auto with lia.
      * exists (O :: map S plies),
               (mkAnalyzedMistake (build_mistake board move e1 e2) expl :: new).
        rewrite <- app_assoc. split; [reflexivity |]. split; [| split].
        -- constructor; [exact Hsorted' |].
           apply Forall_map, Forall_forall. simpl. intros; lia.
        -- constructor; [| exact Hall'].
           exists move, e1, e2. simpl. auto.
        -- simpl. lia.
Qed.

End CallLog.

(** X1. Of a run that returns, the evaluator calls are exactly the board
    before and the board after each selected move, in game order, and the
    explainer calls are exactly the returned mistakes, in order; with
    ['both'] that is two evaluator calls per move, whatever the threshold. *)
Theorem returning_run_calls `{lib : ChessLib}
        (svc : Services) (self : GameAnalyzer) (text target : string)
        (tr tr' : trace) (mistakes : list AnalyzedMistake) :
  analyze_pgn svc self text target tr = (inr mistakes, tr') ->
  exists game evs,
    read_game text = Some game /\
    tr' = tr ++ evs /\
    evaluated evs = selected_boards target (game_board game) (game_mainline game) /\
    explained evs = map the_mistake mistakes /\
    (target = "both" ->
     length (evaluated evs) = (2 * length (game_mainline game))%nat).
Proof.
  unfold analyze_pgn. destruct (read_game text) as [game |]; [| discriminate].
  intros Hrun. apply bind_inr in Hrun as ([b ms] & tr1 & Hloop & Hret).
  injection Hret as <- <-.
  apply for_each_calls in Hloop as (evs & new & -> & -> & Hev & Hex).
  exists game, evs. repeat (split; [first [reflexivity | assumption] |]).
  intros ->. rewrite Hev. apply selected_boards_both.
Qed.

Lemma returning_run_calls_witness :
  exists evs,
    snd (Toy.toy_run (Finite 1000) "ab" "both") = evs /\
    length (evaluated evs) = 4%nat /\ explained evs = [].
Proof.
  destruct (returning_run_calls Toy.toy_services (Toy.toy_analyzer (Finite 1000))
              "ab" "both" [] (snd (Toy.toy_run (Finite 1000) "ab" "both")) [])
    as (game & evs & Hgame & Htr & _ & Hex & Hlen).
  - reflexivity.
  - exists evs. change (snd (Toy.toy_run (Finite 1000) "ab" "both") = evs) in Htr.
    split; [exact Htr |].
    split; [| exact Hex].
    rewrite (Hlen eq_refl).
    change (Some [97%nat; 98%nat] = Some game) in Hgame.
    injection Hgame as <-. reflexivity.
Defined.

(** X2. A [target_color] that is none of ['both'], ['white'] and ['black']
    selects no move: on every text that holds a game the run returns the
    empty list, without an evaluator call and without an error. *)
Theorem unknown_target_selects_nothing `{lib : ChessLib}
        (svc : Services) (self : GameAnalyzer) (text target : string)
        (tr : trace) (game : Game) :
  target <> "both" -> target <> "white" -> target <> "black" ->
  read_game text = Some game ->
  analyze_pgn svc self text target tr = (inr [], tr).
Proof.
  intros Hboth Hwhite Hblack Hgame. unfold analyze_pgn. rewrite Hgame.
  simpl. rewrite for_each_all_skipped; [reflexivity |].
  intros c. unfold skipped.
  destruct (String.eqb_spec target "both"); [contradiction |].
  destruct c; unfold color_name, WHITE; simpl.
  - destruct (String.eqb_spec target "white"); [contradiction | reflexivity].
  - destruct (String.eqb_spec target "black"); [contradiction | reflexivity].
Qed.

Lemma unknown_target_selects_nothing_witness :
  Toy.toy_run (Finite 100) "ab" "White" = (inr [], []).
Proof.
  apply (unknown_target_selects_nothing Toy.toy_services (Toy.toy_analyzer (Finite 100))
           "ab" "White" [] [97%nat; 98%nat]); try discriminate.
  reflexivity.
Defined.

(** X3. The mistakes are returned in game order, at most one per move:
    they were built at strictly increasing indices of the main line, each
    for a selected move on the board reached by the moves before it. *)
Theorem mistakes_in_game_order `{lib : ChessLib}
        (svc : Services) (self : GameAnalyzer) (text target : string)
        (tr tr' : trace) (mistakes : list AnalyzedMistake) :
  analyze_pgn svc self text target tr = (inr mistakes, tr') ->
  exists game plies,
    read_game text = Some game /\
    StronglySorted lt plies /\
    Forall2 (emitted_at_ply target (game_board game) (game_mainline game)) plies mistakes /\
    (length mistakes <= length (game_mainline game))%nat.
Proof.
  unfold analyze_pgn. destruct (read_game text) as [game |]; [| discriminate].
  intros Hrun. apply bind_inr in Hrun as ([b ms] & tr1 & Hloop & Hret).
  injection Hret as <- <-.
  apply for_each_ordered in Hloop as (plies & new & -> & Hsorted & Hall & Hlen).
  exists game, plies. auto.
Qed.

Lemma mistakes_in_game_order_witness :
  exists plies,
    StronglySorted lt plies /\
    Forall2 (emitted_at_ply "both" ([] : list nat) [97%nat; 98%nat]) plies
            (Toy.toy_mistakes (Finite 100) "ab" "both").
Proof.
  destruct (mistakes_in_game_order Toy.toy_services (Toy.toy_analyzer (Finite 100))
              "ab" "both" [] (snd (Toy.toy_run (Finite 100) "ab" "both"))
              (Toy.toy_mistakes (Finite 100) "ab" "both"))
    as (game & plies & Hgame & Hsorted & Hall & _).
  - reflexivity.
  - change (Some [97%nat; 98%nat] = Some game) in Hgame.
    injection Hgame as <-. exists plies. auto.
Defined.

(** ** Failures *)

Section Failures.

Context `{lib : ChessLib}.
Variable svc : Services.
Variable self : GameAnalyzer.

(** A move nobody selects costs nothing. *)
Lemma for_each_none_selected target moves : forall board mistakes tr,
  selected_boards target board moves = [] ->
  for_each (loop_body svc self target) moves (board, mistakes) tr =
  (inr (replay moves board, mistakes), tr).
Proof.
  induction moves as [| move moves IH]; intros board mistakes tr Hnone; [reflexivity |].
  simpl in Hnone.
  destruct (skipped target (color_name (board_turn board))) eqn:Hskip; [| discriminate].
  simpl for_each. simpl. rewrite loop_body_skipped by exact Hskip. apply IH, Hnone.
Qed.

Lemma for_each_not_started target moves : forall board mistakes tr b rest,
  engine (analyzer_engine self) = None ->
  selected_boards target board moves = b :: rest ->
  for_each (loop_body svc self target) moves (board, mistakes) tr =
  (inl (RuntimeError "Engine not started. Use context manager or call start()"),
   tr ++ [EvEvaluate b]).
Proof.
  intros board mistakes tr b rest Hnone. revert board mistakes tr.
  induction moves as [| move moves IH]; intros board mistakes tr Hsel; [discriminate |].
  simpl in Hsel. simpl for_each. simpl.
  destruct (skipped target (color_name (board_turn board))) eqn:Hskip.
  - rewrite loop_body_skipped by exact Hskip. apply IH, Hsel.
  - injection Hsel as <- _. unfold loop_body. rewrite Hskip. simpl.
    rewrite evaluate_not_started by exact Hnone. reflexivity.
Qed.

(** An iteration that raises has just made the call that failed. *)
Lemma loop_body_raises target board mistakes move tr e tr' :
  loop_body svc self target (board, mistakes) move tr = (inl e, tr') ->
  exists before,
    (exists b, tr' = before ++ [EvEvaluate b] /\
               evaluate svc (analyzer_engine self) b before = (inl e, tr')) \/
    (exists m, tr' = before ++ [EvExplain m] /\
               explain_mistake (explainer self) before m = inl e).
Proof.
  unfold loop_body.
  destruct (skipped target (color_name (board_turn board))); [discriminate |].
  simpl.
  destruct (evaluate svc (analyzer_engine self) board tr) as [[e1 | e1] tr1] eqn:He1.
  { intros [= <- <-]. exists tr. left. exists board.
    split; [apply (evaluate_trace _ _ _ _ _ _ He1) | exact He1]. }
  destruct (evaluate svc (analyzer_engine self) (board_push board move) tr1)
    as [[e2 | e2] tr2] eqn:He2.
  { intros [= <- <-]. exists tr1. left. exists (board_push board move).
    split; [apply (evaluate_trace _ _ _ _ _ _ He2) | exact He2]. }
  destruct (is_blunder e1 (eval_after_flipped e2) (blunder_threshold self));
    [| discriminate].
  simpl.
  destruct (explain_mistake (explainer self) tr2 (build_mistake board move e1 e2))
    as [ex | expl] eqn:Hex; [| discriminate].
  intros [= <- <-]. exists tr2. right. eauto.
Qed.

Lemma for_each_raises target moves : forall board mistakes tr e tr',
  for_each (loop_body svc self target) moves (board, mistakes) tr = (inl e, tr') ->
  exists before,
    (exists b, tr' = before ++ [EvEvaluate b] /\
               evaluate svc (analyzer_engine self) b before = (inl e, tr')) \/
    (exists m, tr' = before ++ [EvExplain m] /\
               explain_mistake (explainer self) before m = inl e).
Proof.
  induction moves as [| move moves IH]; intros board mistakes tr e tr' Hrun;
    [discriminate |].
  simpl for_each in Hrun. unfold bind in Hrun.
  destruct (loop_body svc self target (board, mistakes) move tr)
    as [[e1 | [b1 m1]] tr1] eqn:Hbody.
  - injection Hrun as <- <-. eapply loop_body_raises, Hbody.
  - eapply IH, Hrun.
Qed.

(** Each record appended holds the answer the explainer gave when it was
    asked about that record's mistake. *)
Lemma for_each_explained target moves : forall board mistakes tr board' mistakes' tr',
  for_each (loop_body svc self target) moves (board, mistakes) tr =
  (inr (board', mistakes'), tr') ->
  exists new,
    mistakes' = mistakes ++ new /\
    Forall (fun am =>
              exists before after,
                tr' = before ++ EvExplain (the_mistake am) :: after /\
                explain_mistake (explainer self) before (the_mistake am) =
                inr (the_explanation am)) new.
Proof.
  induction moves as [| move moves IH]; intros board mistakes tr board' mistakes' tr' Hrun.
  - injection Hrun as <- <- <-. exists []. rewrite app_nil_r. auto.
  - simpl for_each in Hrun.
    apply bind_inr in Hrun as ([b1 m1] & tr1 & Hbody & Hrest).
    pose proof (for_each_calls _ _ _ _ _ _ _ _ _ _ Hrest) as (evs & _ & Htr' & _).
    apply IH in Hrest as (new & -> & Hnew).
    destruct (skipped target (color_name (board_turn board))) eqn:Hskip.
    + rewrite loop_body_skipped in Hbody by exact Hskip.
      injection Hbody as <- <- <-. exists new. auto.
    + apply loop_body_analysed in Hbody
        as (e1 & e2 & _ & _ & _ & [(_ & Hm1 & _) | (_ & expl & Hex & Hm1 & Htr1)]);
        [| | exact Hskip]; simpl in Hm1; subst m1.
      * exists new. auto.
      * exists (mkAnalyzedMistake (build_mistake board move e1 e2) expl :: new).
        rewrite <- app_assoc. split; [reflexivity |].
        constructor; [| exact Hnew].
        simpl. eexists. exists evs. split; [| exact Hex].
        rewrite Htr', Htr1, <- app_assoc. reflexivity.
Qed.

End Failures.

(** X4. Every returned record pairs its mistake with the answer the
    explainer gave to the call made for that very mistake; with the mock
    explainer the explanation is the template filled from the mistake. *)
Theorem explanation_answers_its_mistake `{lib : ChessLib}
        (svc : Services) (self : GameAnalyzer) (text target : string)
        (tr tr' : trace) (mistakes : list AnalyzedMistake) (am : AnalyzedMistake) :
  analyze_pgn svc self text target tr = (inr mistakes, tr') ->
  In am mistakes ->
  (exists before after,
      tr' = before ++ EvExplain (the_mistake am) :: after /\
      explain_mistake (explainer self) before (the_mistake am) =
      inr (the_explanation am)) /\
  (explainer self = MockExplainer ->
   the_explanation am = mock_explanation (the_mistake am)).
Proof.
  unfold analyze_pgn. destruct (read_game text) as [game |]; [| discriminate].
  intros Hrun Hin. apply bind_inr in Hrun as ([b ms] & tr1 & Hloop & Hret).
  injection Hret as <- <-.
  apply for_each_explained in Hloop as (new & -> & Hnew).
  apply (proj1 (List.Forall_forall _ _) Hnew) in Hin as (before & after & Htr & Hex).
  split; [eauto |].
  intros Hmock. rewrite Hmock in Hex. simpl in Hex. congruence.
Qed.

Lemma explanation_answers_its_mistake_witness :
  the_explanation Toy.toy_white_blunder =
  mock_explanation (the_mistake Toy.toy_white_blunder).
Proof.
  apply (explanation_answers_its_mistake Toy.toy_services (Toy.toy_analyzer (Finite 100))
           "a" "white" [] (snd (Toy.toy_run (Finite 100) "a" "white"))
           [Toy.toy_white_blunder] Toy.toy_white_blunder).
  - reflexivity.
  - left. reflexivity.
  - reflexivity.
Defined.

(** X5. With an engine that was never started (or was closed), a run
    raises the [RuntimeError] of [evaluate] at the first selected move,
    after recording that one call; a run without a selected move returns
    the empty list all the same. *)
Theorem unstarted_engine_raises_at_first_selected_move `{lib : ChessLib}
        (svc : Services) (self : GameAnalyzer) (text target : string)
        (tr : trace) (game : Game) :
  engine (analyzer_engine self) = None ->
  read_game text = Some game ->
  (forall b rest,
      selected_boards target (game_board game) (game_mainline game) = b :: rest ->
      analyze_pgn svc self text target tr =
      (inl (RuntimeError "Engine not started. Use context manager or call start()"),
       tr ++ [EvEvaluate b])) /\
  (selected_boards target (game_board game) (game_mainline game) = [] ->
   analyze_pgn svc self text target tr = (inr [], tr)).
Proof.
  intros Hnone Hgame. unfold analyze_pgn. rewrite Hgame. split.
  - intros b rest Hsel. simpl.
    rewrite (for_each_not_started _ _ _ _ _ _ _ b rest Hnone Hsel). reflexivity.
  - intros Hsel. simpl. rewrite for_each_none_selected by exact Hsel. reflexivity.
Qed.

(** X6. A run that raises made no call after the one that failed: the
    last record of its trace is the evaluator call or the explainer call
    whose error the run raises. *)
Theorem raising_run_stops_at_failing_call `{lib : ChessLib}
        (svc : Services) (self : GameAnalyzer) (text target : string)
        (tr tr' : trace) (e : exn) (game : Game) :
  read_game text = Some game ->
  analyze_pgn svc self text target tr = (inl e, tr') ->
  exists before,
    (exists b, tr' = before ++ [EvEvaluate b] /\
               evaluate svc (analyzer_engine self) b before = (inl e, tr')) \/
    (exists m, tr' = before ++ [EvExplain m] /\
               explain_mistake (explainer self) before m = inl e).
Proof.
  intros Hgame. unfold analyze_pgn. rewrite Hgame. simpl.
  destruct (for_each _ _ _ tr) as [[e1 | st] tr1] eqn:Hloop; [| discriminate].
  intros [= <- <-]. eapply for_each_raises, Hloop.
Qed.

Lemma unstarted_engine_raises_at_first_selected_move_witness :
  analyze_pgn Toy.toy_services ToyFailures.unstarted_analyzer "ab" "black" [] =
  (inl (RuntimeError "Engine not started. Use context manager or call start()"),
   [EvEvaluate ([97%nat] : list nat)]) /\
  analyze_pgn Toy.toy_services ToyFailures.unstarted_analyzer "a" "black" [] = (inr [], []).
Proof.
  split.
  - apply (proj1 (unstarted_engine_raises_at_first_selected_move
                    Toy.toy_services ToyFailures.unstarted_analyzer "ab" "black" []
                    [97%nat; 98%nat] eq_refl eq_refl)
             [97%nat] [[97%nat; 98%nat]]).
    reflexivity.
  - apply (proj2 (unstarted_engine_raises_at_first_selected_move
                    Toy.toy_services ToyFailures.unstarted_analyzer "a" "black" []
                    [97%nat] eq_refl eq_refl)).
    reflexivity.
Defined.

Lemma raising_run_stops_at_failing_call_witness :
  exists before,
    (exists b,
        snd (analyze_pgn Toy.toy_services ToyFailures.unexplained_analyzer "ab" "both" []) =
        before ++ [EvEvaluate b] /\
        evaluate Toy.toy_services Toy.toy_engine b before =
        (inl (ExternalError "backend unavailable"),
         snd (analyze_pgn Toy.toy_services ToyFailures.unexplained_analyzer "ab" "both" [])))
    \/
    (exists m,
        snd (analyze_pgn Toy.toy_services ToyFailures.unexplained_analyzer "ab" "both" []) =
        before ++ [EvExplain m] /\
        explain_mistake ToyFailures.failing_explainer before m =
        inl (ExternalError "backend unavailable")).
Proof.
  apply (raising_run_stops_at_failing_call
           Toy.toy_services ToyFailures.unexplained_analyzer "ab" "both" []
           (snd (analyze_pgn Toy.toy_services ToyFailures.unexplained_analyzer "ab" "both" []))
           (ExternalError "backend unavailable") [97%nat; 98%nat]).
  - reflexivity.
  - reflexivity.
Defined.

(** ** Runs with a deterministic engine and explainer *)

Section Deterministic.

Context `{lib : ChessLib}.
Variable svc : Services.
Variable self : GameAnalyzer.
Hypothesis Hdet : deterministic svc self.

Lemma loop_body_deterministic target st move tr1 tr2 :
  fst (loop_body svc self target st move tr1) =
  fst (loop_body svc self target st move tr2).
Proof using Hdet.
  destruct st as [board mistakes]. unfold loop_body.
  destruct (skipped target (color_name (board_turn board))); [reflexivity |].
  simpl.
  destruct (evaluate svc (analyzer_engine self) board tr1) as [r1 t1] eqn:He1.
  pose proof (evaluate_trace _ _ _ _ _ _ He1) as ->.
  rewrite (evaluate_deterministic svc self Hdet _ _ tr2 _ _ He1).
  destruct r1 as [e | e1]; [reflexivity |].
  destruct (evaluate svc (analyzer_engine self) (board_push board move)
                     (tr1 ++ [EvEvaluate board])) as [r2 t2] eqn:He2.
  pose proof (evaluate_trace _ _ _ _ _ _ He2) as ->.
  rewrite (evaluate_deterministic svc self Hdet _ _ (tr2 ++ [EvEvaluate board]) _ _ He2).
  destruct r2 as [e | e2]; [reflexivity |].
  destruct (is_blunder e1 (eval_after_flipped e2) (blunder_threshold self));
    [| reflexivity].
  simpl.
  rewrite (proj2 Hdet _ ((tr2 ++ [EvEvaluate board]) ++ [EvEvaluate (board_push board move)])).
  destruct (explain_mistake (explainer self) _ _); reflexivity.
Qed.

Lemma for_each_deterministic target moves : forall st tr1 tr2,
  fst (for_each (loop_body svc self target) moves st tr1) =
  fst (for_each (loop_body svc self target) moves st tr2).
Proof using Hdet.
  induction moves as [| move moves IH]; intros st tr1 tr2; [reflexivity |].
  simpl for_each. unfold bind.
  pose proof (loop_body_deterministic target st move tr1 tr2) as Hbody.
  destruct (loop_body svc self target st move tr1) as [[e1 | st1] t1],
           (loop_body svc self target st move tr2) as [[e2 | st2] t2];
    simpl in Hbody; try discriminate.
  - simpl. congruence.
  - injection Hbody as <-. apply IH.
Qed.

End Deterministic.

(** X7. When the engine and the explainer answer independently of the
    calls made before, a run gives the same outcome, the same list or the
    same error, from whatever trace it starts: analysing a text twice
    gives the same mistakes. *)
Theorem deterministic_run_repeatable `{lib : ChessLib}
        (svc : Services) (self : GameAnalyzer) (text target : string)
        (tr1 tr2 : trace) :
  deterministic svc self ->
  fst (analyze_pgn svc self text target tr1) =
  fst (analyze_pgn svc self text target tr2).
Proof.
  intros Hdet. unfold analyze_pgn.
  destruct (read_game text) as [game |]; [| reflexivity].
  simpl.
  pose proof (for_each_deterministic svc self Hdet target (game_mainline game)
                (game_board game, []) tr1 tr2) as Hloop.
  destruct (for_each _ _ _ tr1) as [[e1 | st1] t1],
           (for_each _ _ _ tr2) as [[e2 | st2] t2];
    simpl in Hloop; try discriminate; simpl; congruence.
Qed.

Lemma deterministic_run_repeatable_witness :
  fst (analyze_pgn Toy.toy_services (Toy.toy_analyzer (Finite 100)) "ab" "both"
                   (snd (Toy.toy_run (Finite 100) "ab" "both"))) =
  fst (Toy.toy_run (Finite 100) "ab" "both").
Proof.
  apply (deterministic_run_repeatable Toy.toy_services (Toy.toy_analyzer (Finite 100))).
  split; intros; reflexivity.
Defined.

Section Thresholds.

Context `{lib : ChessLib}.
Variable svc : Services.
Variable self : GameAnalyzer.
Variable raised : Threshold.
Hypothesis Hdet : deterministic svc self.
Hypothesis Hle : Threshold_le (blunder_threshold self) raised.

Lemma int_ge_float_mono (x : Z) :
  int_ge_float x raised = true -> int_ge_float x (blunder_threshold self) = true.
Proof using Hle.
  intros Hx. apply int_ge_float_reaches. apply (reaches_mono _ _ _ Hle).
  apply int_ge_float_reaches, Hx.
Qed.

(** The run at the raised threshold keeps, of the records of the run at
    the lower one, those whose drop reaches the raised threshold. *)
Lemma for_each_threshold target moves : forall board mistakes tr board' mistakes' tr' trr,
  for_each (loop_body svc self target) moves (board, mistakes) tr =
  (inr (board', mistakes'), tr') ->
  exists trr',
    for_each (loop_body svc (with_threshold self raised) target) moves
             (board, List.filter (drop_reaches raised) mistakes) trr =
    (inr (board', List.filter (drop_reaches raised) mistakes'), trr').
Proof using Hdet Hle.
  induction moves as [| move moves IH];
    intros board mistakes tr board' mistakes' tr' trr Hrun.
  - injection Hrun as <- <- <-. exists trr. reflexivity.
  - simpl for_each in Hrun.
    apply bind_inr in Hrun as ([b1 m1] & tr1 & Hbody & Hrest).
    pose proof (loop_body_board _ _ _ _ _ _ _ _ _ _ Hbody) as ->.
    simpl for_each. simpl.
    destruct (skipped target (color_name (board_turn board))) eqn:Hskip.
    + rewrite loop_body_skipped in Hbody by exact Hskip.
      injection Hbody as <- <-.
      rewrite loop_body_skipped by exact Hskip. eapply IH, Hrest.
    + apply loop_body_analysed in Hbody
        as (e1 & e2 & He1 & He2 & _ & Hcases); [| exact Hskip].
      unfold loop_body. rewrite Hskip. simpl.
      rewrite (evaluate_deterministic svc self Hdet _ _ trr _ _ He1). simpl.
      rewrite (evaluate_deterministic svc self Hdet _ _ (trr ++ [EvEvaluate board]) _ _ He2).
      simpl.
      destruct (is_blunder e1 (eval_after_flipped e2) raised) eqn:Hraised.
      * destruct Hcases as [(Hno & _) | (_ & expl & Hex & Hm1 & _)].
        { unfold is_blunder in Hno, Hraised.
          rewrite (int_ge_float_mono _ Hraised) in Hno. discriminate. }
        simpl in Hm1. subst m1. simpl.
        rewrite (proj2 Hdet _ ((tr ++ [EvEvaluate board]) ++
                               [EvEvaluate (board_push board move)])), Hex.
        assert (Hkeep : List.filter (drop_reaches raised)
                          (mistakes ++ [mkAnalyzedMistake (build_mistake board move e1 e2) expl]) =
                        List.filter (drop_reaches raised) mistakes ++
                        [mkAnalyzedMistake (build_mistake board move e1 e2) expl]).
        { rewrite List.filter_app. simpl. unfold drop_reaches at 2. simpl.
          unfold is_blunder in Hraised. simpl in Hraised. rewrite Hraised. reflexivity. }
        rewrite <- Hkeep. eapply IH, Hrest.
      * assert (Hm1 : List.filter (drop_reaches raised) m1 =
                      List.filter (drop_reaches raised) mistakes).
        { destruct Hcases as [(_ & Hm1 & _) | (_ & expl & _ & Hm1 & _)];
            simpl in Hm1; subst m1; [reflexivity |].
          rewrite List.filter_app. simpl. unfold drop_reaches at 2. simpl.
          unfold is_blunder in Hraised. simpl in Hraised. rewrite Hraised.
          apply app_nil_r. }
        simpl. rewrite <- Hm1. eapply IH, Hrest.
Qed.

End Thresholds.

(** X8. With a deterministic engine and explainer, raising the threshold
    only removes mistakes: the run at the raised threshold returns, in the
    same order and with the same records, the mistakes of the first run
    whose [eval_drop_cp] reaches the raised threshold. *)
Theorem raising_threshold_filters_mistakes `{lib : ChessLib}
        (svc : Services) (self : GameAnalyzer) (raised : Threshold)
        (text target : string) (tr tr' trr : trace) (all : list AnalyzedMistake) :
  deterministic svc self ->
  Threshold_le (blunder_threshold self) raised ->
  analyze_pgn svc self text target tr = (inr all, tr') ->
  exists trr',
    analyze_pgn svc (with_threshold self raised) text target trr =
    (inr (List.filter (drop_reaches raised) all), trr').
Proof.
  intros Hdet Hle. unfold analyze_pgn.
  destruct (read_game text) as [game |]; [| discriminate].
  intros Hrun. apply bind_inr in Hrun as ([b ms] & tr1 & Hloop & Hret).
  injection Hret as <- <-.
  eapply (for_each_threshold svc self raised Hdet Hle) with (trr := trr) in Hloop
    as (trr' & Hraised).
  exists trr'. simpl in Hraised |- *. rewrite Hraised. reflexivity.
Qed.

Lemma raising_threshold_filters_mistakes_witness :
  exists trr',
    Toy.toy_run (Finite 200) "ab" "both" =
    (inr (List.filter (drop_reaches (Finite 200)) (Toy.toy_mistakes (Finite 100) "ab" "both")),
     trr') /\
    length (Toy.toy_mistakes (Finite 100) "ab" "both") = 2%nat /\
    length (List.filter (drop_reaches (Finite 200))
                        (Toy.toy_mistakes (Finite 100) "ab" "both")) = 1%nat.
Proof.
  destruct (raising_threshold_filters_mistakes
              Toy.toy_services (Toy.toy_analyzer (Finite 100)) (Finite 200)
              "ab" "both" [] (snd (Toy.toy_run (Finite 100) "ab" "both")) []
              (Toy.toy_mistakes (Finite 100) "ab" "both"))
    as (trr' & Hrun).
  - split; intros; reflexivity.
  - unfold Threshold_le, Qle; simpl; lia.
  - reflexivity.
  - exists trr'. split; [exact Hrun |]. split; reflexivity.
Defined.

Lemma filter_two_colours (l : list AnalyzedMistake) :
  Forall (fun am => moved_by "white" am = negb (moved_by "black" am)) l ->
  length l =
  (length (List.filter (moved_by "white") l) +
   length (List.filter (moved_by "black") l))%nat.
Proof.
  induction 1 as [| am l Ham _ IH]; [reflexivity |].
  simpl. rewrite Ham. destruct (moved_by "black" am); simpl; lia.
Qed.

(** X9. With a deterministic engine and explainer, the ['black'] run
    returns the black-mover mistakes of the ['both'] run, in order, and
    the ['white'] and ['black'] runs share out the ['both'] run: every
    mistake of it is in exactly one of them. *)
Theorem colour_runs_share_out_both_run `{lib : ChessLib}
        (svc : Services) (self : GameAnalyzer) (text : string)
        (tr tr_both tr_both' : trace) (all : list AnalyzedMistake) :
  deterministic svc self ->
  analyze_pgn svc self text "both" tr_both = (inr all, tr_both') ->
  (exists tr',
      analyze_pgn svc self text "black" tr =
      (inr (List.filter (moved_by "black") all), tr')) /\
  length all =
  (length (List.filter (moved_by "white") all) +
   length (List.filter (moved_by "black") all))%nat.
Proof.
  intros Hdet Hrun. split.
  - revert Hrun. unfold analyze_pgn.
    destruct (read_game text) as [game |]; [| discriminate].
    intros Hrun. apply bind_inr in Hrun as ([b ms] & tr1 & Hloop & Hret).
    injection Hret as <- <-.
    eapply (for_each_filter svc self Hdet "black") with (trw := tr) in Hloop
      as (trw' & Hblack); [| discriminate].
    exists trw'. simpl in Hblack |- *. rewrite Hblack. reflexivity.
  - apply filter_two_colours.
    apply analyze_pgn_emitted in Hrun as (game & _ & Hall).
    eapply Forall_impl; [exact Hall |].
    intros am (board & move & e1 & e2 & tr0 & _ & _ & _ & Hm & _).
    unfold moved_by. rewrite Hm. simpl.
    destruct (board_turn board); reflexivity.
Qed.

Lemma colour_runs_share_out_both_run_witness :
  exists tr',
    Toy.toy_run (Finite 100) "ab" "black" =
    (inr (List.filter (moved_by "black") (Toy.toy_mistakes (Finite 100) "ab" "both")), tr').
Proof.
  apply (proj1 (colour_runs_share_out_both_run
                  Toy.toy_services (Toy.toy_analyzer (Finite 100)) "ab" [] []
                  (snd (Toy.toy_run (Finite 100) "ab" "both"))
                  (Toy.toy_mistakes (Finite 100) "ab" "both")
                  ltac:(split; intros; reflexivity)
                  ltac:(reflexivity))).
Defined.

(** ** The evaluator and the session *)

(** X10. For every score a UCI engine gives (centipawns or mate in [n],
    taken from the side to move of the board), what the conversion returns
    is that score seen from White, with a mate saturated to 10000 signed
    for the side that mates; and the value for Black to move is always the
    opposite of the value for White to move. *)
Theorem score_to_centipawns_is_white_saturated (s : PovScore) :
  (relative s <> MateGiven ->
   _score_to_centipawns s (turn s) = saturated (white s)) /\
  _score_to_centipawns s BLACK = - _score_to_centipawns s WHITE.
Proof.
  destruct s as [[n | n |] c]; split; simpl; try (intros Hgiven; congruence); intros;
    unfold _score_to_centipawns, saturated, white, pov, is_mate, or_zero; simpl;
    destruct c; simpl;
    repeat match goal with
           | |- context [?a <? ?b] => destruct (Z.ltb_spec a b); simpl
           | |- context [?a =? ?b] => destruct (Z.eqb_spec a b); simpl
           end; try reflexivity; lia.
Qed.

Lemma score_to_centipawns_is_white_saturated_witness :
  _score_to_centipawns (mkPovScore (Mate (-2)) BLACK) BLACK = 10000.
Proof.
  exact (eq_trans
           (proj1 (score_to_centipawns_is_white_saturated (mkPovScore (Mate (-2)) BLACK))
                  ltac:(discriminate))
           eq_refl).
Defined.

(** X11. Once the session holds a handle, [evaluate] raises exactly when
    the engine's [analyse] does, with the same error; an answer without a
    score is stored as 0 and one without a principal variation as the
    best move [""] / ["(none)"], the first move of the variation being
    taken otherwise. *)
Theorem evaluate_accepts_incomplete_answers `{lib : ChessLib}
        (svc : Services) (self : StockfishEngine) (board : Board) (tr : trace)
        (h : SimpleEngine) :
  engine self = Some h ->
  let asked := tr ++ [EvEvaluate board] in
  (forall e, analyse svc asked h board (depth self) = inl e <->
             evaluate svc self board tr = (inl e, asked)) /\
  (forall info,
      analyse svc asked h board (depth self) = inr info ->
      exists ev,
        evaluate svc self board tr = (inr ev, asked) /\
        (info_score info = None -> score_cp ev = 0) /\
        (info_pv info = [] -> best_move_uci ev = "" /\ best_move_san ev = "(none)") /\
        (forall best rest,
            info_pv info = best :: rest ->
            best_move_uci ev = move_uci best /\ best_move_san ev = board_san board best)).
Proof.
  intros Hsome. cbv zeta. unfold evaluate. simpl. rewrite Hsome. simpl. split.
  - intros e. destruct (analyse svc _ h board (depth self)) as [e' | info].
    + split; intros [= <-]; reflexivity.
    + split; [discriminate |]. destruct (info_pv info); discriminate.
  - intros info ->. destruct (info_pv info) as [| best rest] eqn:Hpv;
      eexists; (split; [reflexivity |]); simpl.
    + split; [intros ->; reflexivity |]. split; [auto | discriminate].
    + split; [intros ->; reflexivity |]. split; [discriminate |].
      intros b r [= <- <-]. auto.
Qed.

(** X12. From a fresh session, [start] followed by [close] quits the very
    process [start] opened and gives the fresh session back; [evaluate]
    on the closed session raises the [RuntimeError]. *)
Theorem start_close_round_trip `{lib : ChessLib}
        (svc : Services) (path : option string) (d : Z) (tr : trace)
        (h : SimpleEngine) (board : Board) :
  let fresh := StockfishEngine_init path d in
  popen_uci svc tr (stockfish_path fresh) = inr h ->
  exists started,
    start svc fresh tr = (inr started, tr ++ [EvPopen (stockfish_path fresh)]) /\
    engine started = Some h /\
    close started (tr ++ [EvPopen (stockfish_path fresh)]) =
    (inr fresh, (tr ++ [EvPopen (stockfish_path fresh)]) ++ [EvQuit h]) /\
    fst (evaluate svc fresh board tr) =
    inl (RuntimeError "Engine not started. Use context manager or call start()").
Proof.
  cbv zeta. intros Hopen.
  assert (Hraise : fst (evaluate svc (StockfishEngine_init path d) board tr) =
                   inl (RuntimeError "Engine not started. Use context manager or call start()")).
  { rewrite evaluate_not_started; reflexivity. }
  eexists. unfold start. simpl in Hopen |- *.
  rewrite Hopen. simpl.
  split; [reflexivity |]. split; [reflexivity |]. split; [reflexivity |].
  exact Hraise.
Qed.

Lemma start_close_round_trip_witness :
  exists started,
    start Toy.toy_services (StockfishEngine_init (Some "") 18) [] =
    (inr started, [EvPopen "stockfish"]) /\
    close started [EvPopen "stockfish"] =
    (inr (StockfishEngine_init None 18), [EvPopen "stockfish"; EvQuit (mkSimpleEngine 0)]).
Proof.
  destruct (start_close_round_trip Toy.toy_services (Some "") 18 []
              (mkSimpleEngine 0) ([] : list nat) eq_refl)
    as (started & Hstart & _ & Hclose & _).
  exists started. split; [exact Hstart | exact Hclose].
Defined.

(** X13. [start] on a session that already holds a handle does not quit
    it: the new handle replaces the old one, and a [close] afterwards
    quits the new process only. *)
Theorem restart_does_not_quit_first_process `{lib : ChessLib}
        (svc : Services) (self : StockfishEngine) (tr : trace)
        (h0 h1 : SimpleEngine) :
  engine self = Some h0 ->
  popen_uci svc tr (stockfish_path self) = inr h1 ->
  exists started closed,
    start svc self tr = (inr started, tr ++ [EvPopen (stockfish_path self)]) /\
    engine started = Some h1 /\
    close started (tr ++ [EvPopen (stockfish_path self)]) =
    (inr closed, tr ++ [EvPopen (stockfish_path self); EvQuit h1]) /\
    engine closed = None /\
    close closed (tr ++ [EvPopen (stockfish_path self); EvQuit h1]) =
    (inr closed, tr ++ [EvPopen (stockfish_path self); EvQuit h1]).
Proof.
  intros _ Hopen.
  assert (Happ : (tr ++ [EvPopen (stockfish_path self)]) ++ [EvQuit h1] =
                 tr ++ [EvPopen (stockfish_path self); EvQuit h1]).
  { rewrite <- app_assoc. reflexivity. }
  exists (mkStockfishEngine (stockfish_path self) (depth self) (Some h1)),
         (mkStockfishEngine (stockfish_path self) (depth self) None).
  split.
  - unfold start. simpl. rewrite Hopen. reflexivity.
  - split; [reflexivity |]. split.
    + unfold close. simpl. rewrite Happ. reflexivity.
    + split; reflexivity.
Qed.

Lemma restart_does_not_quit_first_process_witness :
  exists closed,
    bind (start Toy.toy_services Toy.toy_engine) close [EvPopen "stockfish"] =
    (inr closed, [EvPopen "stockfish"; EvPopen "stockfish"; EvQuit (mkSimpleEngine 1)]).
Proof.
  destruct (restart_does_not_quit_first_process Toy.toy_services Toy.toy_engine
              [EvPopen "stockfish"] (mkSimpleEngine 0) (mkSimpleEngine 1) eq_refl eq_refl)
    as (started & closed & Hstart & _ & Hclose & _).
  exists closed. unfold bind. rewrite Hstart. exact Hclose.
Defined.


Lemma evaluate_accepts_incomplete_answers_witness :
  exists ev,
    evaluate Toy.toy_services Toy.toy_engine ([] : list nat) [] =
    (inr ev, [EvEvaluate ([] : list nat)]) /\
    best_move_uci ev = "h" /\ best_move_san ev = "h".
Proof.
  destruct (proj2 (evaluate_accepts_incomplete_answers
                     Toy.toy_services Toy.toy_engine ([] : list nat) []
                     (mkSimpleEngine 0) eq_refl)
                  (@mkInfoDict Toy.toy_lib (Some (mkPovScore (Cp 50) WHITE)) [104%nat])
                  eq_refl)
    as (ev & Hev & _ & _ & Hbest).
  exists ev. split; [exact Hev |].
  apply (Hbest 104%nat []). reflexivity.
Defined.


(** ** The response parser on structured and on unstructured responses *)

Section Layout.

Lemma append_cons (x : ascii) (a b : string) : String x a +:+ b = String x (a +:+ b).
Proof. reflexivity. Qed.

Lemma append_nil (b : string) : "" +:+ b = b.
Proof. reflexivity. Qed.

Lemma append_assoc (a b c : string) : (a +:+ b) +:+ c = a +:+ (b +:+ c).
Proof.
  induction a as [| x a IH]; [reflexivity |].
  rewrite !append_cons, IH. reflexivity.
Qed.

Lemma no_newline_cons c s :
  no_newline (String c s) = negb (Ascii.eqb c PyStr.newline) && no_newline s.
Proof. reflexivity. Qed.

Lemma split_cons c s :
  PyStr.split PyStr.newline (String c s) =
  if Ascii.eqb c PyStr.newline then EmptyString :: PyStr.split PyStr.newline s
  else match PyStr.split PyStr.newline s with
       | piece :: pieces => String c piece :: pieces
       | [] => [String c EmptyString]
       end.
Proof. reflexivity. Qed.

Lemma split_one s : no_newline s = true -> PyStr.split PyStr.newline s = [s].
Proof.
  induction s as [| c s IH]; [reflexivity |].
  rewrite no_newline_cons. intros H. apply andb_true_iff in H as [Hc Hs].
  apply negb_true_iff in Hc. rewrite split_cons, Hc, (IH Hs). reflexivity.
Qed.

Lemma split_line a b :
  no_newline a = true ->
  PyStr.split PyStr.newline (a +:+ String PyStr.newline b) =
  a :: PyStr.split PyStr.newline b.
Proof.
  induction a as [| c a IH].
  - intros _. rewrite append_nil, split_cons, Ascii.eqb_refl. reflexivity.
  - rewrite no_newline_cons. intros H. apply andb_true_iff in H as [Hc Ha].
    apply negb_true_iff in Hc.
    rewrite append_cons, split_cons, Hc, (IH Ha). reflexivity.
Qed.

Lemma join_lines_cons x y l :
  join_lines (x :: y :: l) = x +:+ String PyStr.newline (join_lines (y :: l)).
Proof. reflexivity. Qed.

Lemma split_join lines :
  lines <> [] -> forallb no_newline lines = true ->
  PyStr.split PyStr.newline (join_lines lines) = lines.
Proof.
  induction lines as [| x l IH]; [congruence |]. intros _ Hall.
  change (forallb no_newline (x :: l)) with (no_newline x && forallb no_newline l) in Hall.
  apply andb_true_iff in Hall as [Hx Hrest].
  destruct l as [| y l].
  - apply split_one, Hx.
  - rewrite join_lines_cons, (split_line _ _ Hx), IH;
      [reflexivity | discriminate | exact Hrest].
Qed.

Lemma rstrip_cons c s :
  PyStr.rstrip (String c s) =
  match PyStr.rstrip s with
  | EmptyString => if PyStr.isspace c then EmptyString else String c EmptyString
  | r => String c r
  end.
Proof. reflexivity. Qed.

Lemma rstrip_app a b :
  PyStr.rstrip b = b -> b <> "" -> PyStr.rstrip (a +:+ b) = a +:+ b.
Proof.
  intros Hb Hne. induction a as [| c a IH]; [exact Hb |].
  rewrite append_cons, rstrip_cons, IH.
  destruct (a +:+ b) eqn:Hab; [| reflexivity].
  destruct a; [rewrite append_nil in Hab; contradiction |].
  rewrite append_cons in Hab. discriminate.
Qed.

Lemma join_lines_last l x : exists p, join_lines (l ++ [x]) = p +:+ x.
Proof.
  induction l as [| a l [p Hp]].
  - exists "". reflexivity.
  - destruct (l ++ [x]) as [| y t] eqn:Ht; [destruct l; discriminate |].
    change ((a :: l) ++ [x]) with (a :: (l ++ [x])).
    rewrite Ht, join_lines_cons, Hp.
    exists (a +:+ String PyStr.newline p).
    rewrite append_assoc, append_cons. reflexivity.
Qed.

(** A text whose first line starts and whose last line ends with a
    character that is not white space is left as it is by [strip]. *)
Lemma strip_join c first lines :
  PyStr.isspace c = false ->
  PyStr.rstrip (List.last (String c first :: lines) "") = List.last (String c first :: lines) "" ->
  List.last (String c first :: lines) "" <> "" ->
  PyStr.strip (join_lines (String c first :: lines)) = join_lines (String c first :: lines).
Proof.
  intros Hc Hlast Hne.
  assert (Hl : PyStr.lstrip (join_lines (String c first :: lines)) =
               join_lines (String c first :: lines)).
  { destruct lines as [| y l].
    - change (join_lines [String c first]) with (String c first).
      simpl. rewrite Hc. reflexivity.
    - rewrite join_lines_cons, append_cons. simpl. rewrite Hc. reflexivity. }
  unfold PyStr.strip. rewrite Hl.
  assert (Hsplit : String c first :: lines <> []) by discriminate.
  destruct (join_lines_last (removelast (String c first :: lines))
                            (List.last (String c first :: lines) "")) as [p Hp].
  rewrite <- (app_removelast_last "" Hsplit) in Hp.
  rewrite Hp. apply rstrip_app; assumption.
Qed.

Lemma last_after (l : list string) y ys d : List.last (l ++ y :: ys) d = List.last (y :: ys) d.
Proof.
  induction l as [| a l IH]; [reflexivity |].
  change ((a :: l) ++ y :: ys) with (a :: (l ++ y :: ys)).
  destruct (l ++ y :: ys) eqn:Hl; [destruct l; discriminate |].
  rewrite <- IH. reflexivity.
Qed.

Lemma last_good (P : string -> Prop) y ys d :
  P y -> Forall P ys -> P (List.last (y :: ys) d).
Proof.
  intros Hy Hys. revert y Hy. induction Hys as [| z ys Hz _ IH]; intros y Hy;
    [exact Hy |].
  change (List.last (y :: z :: ys) d) with (List.last (z :: ys) d). apply IH, Hz.
Qed.

End Layout.

Section Structured.

Lemma is_key_truthy k : is_key k -> PyStr.truthy k = true.
Proof. intros [-> | [-> | [-> | ->]]]; reflexivity. Qed.

Lemma content_line_facts c :
  content_line c = true ->
  PyStr.strip c = c /\ PyStr.truthy c = true /\
  section_header c = None /\ no_newline c = true.
Proof.
  unfold content_line. intros H.
  apply andb_true_iff in H as [H Hhead]. apply andb_true_iff in H as [H Hr].
  apply andb_true_iff in H as [H Hl]. apply andb_true_iff in H as [Ht Hn].
  apply String.eqb_eq in Hl, Hr.
  split; [unfold PyStr.strip; rewrite Hl; exact Hr |].
  split; [exact Ht |]. split; [| exact Hn].
  destruct (section_header c); [discriminate | reflexivity].
Qed.

Lemma parse_lines_cons line rest st :
  parse_lines (line :: rest) st =
  match parse_line st line with
  | inl e => inl e
  | inr st' => parse_lines rest st'
  end.
Proof. reflexivity. Qed.

Lemma parse_line_blank st : parse_line st "" = inr st.
Proof. destruct st. reflexivity. Qed.

Lemma parse_line_content sections k old c :
  is_key k -> sections !! k = Some old -> content_line c = true ->
  parse_line (sections, Some k) c =
  inr (<[k := if PyStr.truthy old then old +:+ (" " +:+ c) else c]> sections, Some k).
Proof.
  intros Hk Hold Hc. apply content_line_facts in Hc as (Hstrip & Ht & Hhead & _).
  unfold parse_line. rewrite Hstrip, Ht, Hhead, (is_key_truthy k Hk). simpl.
  unfold getitem. rewrite Hold. destruct (PyStr.truthy old); reflexivity.
Qed.

(** The lines of a section are appended to its entry, one space between
    two of them. *)
Lemma parse_lines_contents cs : forall sections old rest k,
  is_key k -> sections !! k = Some old -> forallb content_line cs = true ->
  parse_lines (cs ++ rest) (sections, Some k) =
  parse_lines rest (<[k := join_onto old cs]> sections, Some k).
Proof.
  induction cs as [| c cs IH]; intros sections old rest k Hk Hold Hcs.
  - simpl. rewrite insert_id by exact Hold. reflexivity.
  - change (forallb content_line (c :: cs))
      with (content_line c && forallb content_line cs) in Hcs.
    apply andb_true_iff in Hcs as [Hc Hcs].
    change ((c :: cs) ++ rest) with (c :: (cs ++ rest)).
    rewrite parse_lines_cons, (parse_line_content _ _ _ _ Hk Hold Hc).
    rewrite (IH _ (if PyStr.truthy old then old +:+ (" " +:+ c) else c) rest k Hk);
      [| apply lookup_insert_eq | exact Hcs].
    rewrite insert_insert_eq. reflexivity.
Qed.

Lemma concat_cons sep x y l :
  String.concat sep (x :: y :: l) = x +:+ (sep +:+ String.concat sep (y :: l)).
Proof. reflexivity. Qed.

Lemma join_onto_truthy cs : forall old,
  PyStr.truthy old = true ->
  join_onto old cs = String.concat " " (old :: cs).
Proof.
  induction cs as [| c cs IH]; intros old Hold; [reflexivity |].
  unfold join_onto. simpl fold_left. rewrite Hold.
  fold (join_onto (old +:+ (" " +:+ c)) cs).
  rewrite IH by (destruct old; [discriminate | reflexivity]).
  destruct cs as [| d cs]; [reflexivity |].
  rewrite !concat_cons, !append_assoc. reflexivity.
Qed.

Lemma join_onto_concat cs :
  forallb content_line cs = true -> join_onto "" cs = String.concat " " cs.
Proof.
  destruct cs as [| c cs]; [reflexivity |].
  change (forallb content_line (c :: cs))
    with (content_line c && forallb content_line cs).
  intros H. apply andb_true_iff in H as [Hc _].
  apply content_line_facts in Hc as (_ & Ht & _).
  unfold join_onto. simpl fold_left. fold (join_onto c cs).
  apply join_onto_truthy, Ht.
Qed.

Lemma contents_no_newline cs :
  forallb content_line cs = true -> forallb no_newline cs = true.
Proof.
  induction cs as [| c cs IH]; [reflexivity |].
  change (forallb content_line (c :: cs))
    with (content_line c && forallb content_line cs).
  change (forallb no_newline (c :: cs)) with (no_newline c && forallb no_newline cs).
  intros H. apply andb_true_iff in H as [Hc Hcs].
  apply content_line_facts in Hc as (_ & _ & _ & Hn). rewrite Hn, (IH Hcs). reflexivity.
Qed.

Lemma contents_end_well cs :
  forallb content_line cs = true ->
  Forall (fun x => PyStr.rstrip x = x /\ x <> "") cs.
Proof.
  induction cs as [| c cs IH]; [constructor |].
  change (forallb content_line (c :: cs))
    with (content_line c && forallb content_line cs).
  intros H. apply andb_true_iff in H as [Hc Hcs]. constructor; [| apply IH, Hcs].
  unfold content_line in Hc.
  apply andb_true_iff in Hc as [Hc _]. apply andb_true_iff in Hc as [Hc Hr].
  apply andb_true_iff in Hc as [Hc _]. apply andb_true_iff in Hc as [Ht _].
  apply String.eqb_eq in Hr. split; [exact Hr |]. intros ->. discriminate.
Qed.

End Structured.

Lemma parse_line_labels sections cs :
  parse_line (sections, cs) "WHY IT LOOKED GOOD:" = inr (sections, Some "why_looked_good") /\
  parse_line (sections, cs) "WHY IT FAILED:" = inr (sections, Some "why_failed") /\
  parse_line (sections, cs) "CONCEPT:" = inr (sections, Some "concept_involved") /\
  parse_line (sections, cs) "PATTERN:" = inr (sections, Some "typical_pattern").
Proof. repeat split. Qed.

Lemma structured_response_lines (good failed concept pattern : list string) :
  forallb content_line good = true -> forallb content_line failed = true ->
  forallb content_line concept = true -> forallb content_line pattern = true ->
  response_lines (structured_response good failed concept pattern) =
  "WHY IT LOOKED GOOD:" :: good ++ "" :: "WHY IT FAILED:" :: failed ++
  "" :: "CONCEPT:" :: concept ++ "" :: "PATTERN:" :: pattern.
Proof.
  intros Hg Hf Hc Hp. unfold response_lines, structured_response.
  change (["WHY IT LOOKED GOOD:"] ++ good ++ [""; "WHY IT FAILED:"] ++ failed ++
          [""; "CONCEPT:"] ++ concept ++ [""; "PATTERN:"] ++ pattern)
    with ("WHY IT LOOKED GOOD:" :: good ++ "" :: "WHY IT FAILED:" :: failed ++
          "" :: "CONCEPT:" :: concept ++ "" :: "PATTERN:" :: pattern).
  set (tail := good ++ "" :: "WHY IT FAILED:" :: failed ++
               "" :: "CONCEPT:" :: concept ++ "" :: "PATTERN:" :: pattern).
  assert (Hlast : PyStr.rstrip (List.last ("WHY IT LOOKED GOOD:" :: tail) "") =
                  List.last ("WHY IT LOOKED GOOD:" :: tail) "" /\
                  List.last ("WHY IT LOOKED GOOD:" :: tail) "" <> "").
  { assert (Heq : "WHY IT LOOKED GOOD:" :: tail =
                  ("WHY IT LOOKED GOOD:" :: good ++ "" :: "WHY IT FAILED:" :: failed ++
                   "" :: "CONCEPT:" :: concept ++ [""]) ++ "PATTERN:" :: pattern).
    { unfold tail. simpl. repeat (rewrite <- app_assoc; simpl). reflexivity. }
    rewrite Heq, last_after.
    apply (last_good (fun x => PyStr.rstrip x = x /\ x <> "")).
    - split; [reflexivity | discriminate].
    - apply contents_end_well, Hp. }
  rewrite (strip_join "W"%char "HY IT LOOKED GOOD:" tail eq_refl
                      (proj1 Hlast) (proj2 Hlast)).
  apply split_join; [discriminate |].
  unfold tail.
  change (forallb no_newline ("WHY IT LOOKED GOOD:" :: ?l))
    with (no_newline "WHY IT LOOKED GOOD:" && forallb no_newline l).
  rewrite !forallb_app. simpl forallb.
  rewrite !forallb_app. simpl forallb. rewrite !forallb_app. simpl forallb.
  rewrite (contents_no_newline _ Hg), (contents_no_newline _ Hf),
    (contents_no_newline _ Hc), (contents_no_newline _ Hp).
  reflexivity.
Qed.

(** X15. A response in the layout the prompt asks for (each label on a
    line of its own, then the lines of the section) is read back: every
    field is the lines of its section joined by single spaces, and the
    empty string for a section without lines. *)
Theorem structured_response_round_trip (good failed concept pattern : list string) :
  forallb content_line good = true -> forallb content_line failed = true ->
  forallb content_line concept = true -> forallb content_line pattern = true ->
  _parse_response (structured_response good failed concept pattern) =
  inr {| why_good := String.concat " " good;
         why_failed := String.concat " " failed;
         concept_involved := String.concat " " concept;
         typical_pattern := String.concat " " pattern |}.
Proof.
  intros Hg Hf Hc Hp. unfold _parse_response.
  rewrite (structured_response_lines _ _ _ _ Hg Hf Hc Hp).
  destruct (parse_line_labels initial_sections None) as (L1 & _).
  rewrite parse_lines_cons, L1.
  rewrite (parse_lines_contents good _ "" _ "why_looked_good");
    [| unfold is_key; auto | reflexivity | exact Hg].
  set (s1 := <["why_looked_good" := join_onto "" good]> initial_sections).
  rewrite parse_lines_cons, parse_line_blank.
  destruct (parse_line_labels s1 (Some "why_looked_good")) as (_ & L2 & _).
  rewrite parse_lines_cons, L2.
  rewrite (parse_lines_contents failed _ "" _ "why_failed");
    [| unfold is_key; auto
     | unfold s1; rewrite lookup_insert_ne by discriminate; reflexivity
     | exact Hf].
  set (s2 := <["why_failed" := join_onto "" failed]> s1).
  rewrite parse_lines_cons, parse_line_blank.
  destruct (parse_line_labels s2 (Some "why_failed")) as (_ & _ & L3 & _).
  rewrite parse_lines_cons, L3.
  rewrite (parse_lines_contents concept _ "" _ "concept_involved");
    [| unfold is_key; auto
     | unfold s2, s1; rewrite !lookup_insert_ne by discriminate; reflexivity
     | exact Hc].
  set (s3 := <["concept_involved" := join_onto "" concept]> s2).
  rewrite parse_lines_cons, parse_line_blank.
  destruct (parse_line_labels s3 (Some "concept_involved")) as (_ & _ & _ & L4).
  rewrite parse_lines_cons, L4.
  rewrite <- (app_nil_r pattern) at 1.
  rewrite (parse_lines_contents pattern _ "" _ "typical_pattern");
    [| unfold is_key; auto
     | unfold s3, s2, s1; rewrite !lookup_insert_ne by discriminate; reflexivity
     | exact Hp].
  simpl parse_lines. unfold getitem, s3, s2, s1.
  rewrite !lookup_insert_ne by discriminate. rewrite lookup_insert_eq.
  rewrite !lookup_insert_ne by discriminate. rewrite lookup_insert_eq.
  rewrite !lookup_insert_ne by discriminate. rewrite lookup_insert_eq.
  rewrite lookup_insert_eq.
  rewrite !join_onto_concat by assumption. reflexivity.
Qed.

Lemma structured_response_round_trip_witness :
  _parse_response
    (structured_response ["It wins a pawn."] ["The queen is"; "trapped after Nc3."]
                         [] ["Loose pieces drop off."]) =
  inr {| why_good := "It wins a pawn.";
         why_failed := "The queen is trapped after Nc3.";
         concept_involved := "";
         typical_pattern := "Loose pieces drop off." |}.
Proof.
  apply (structured_response_round_trip
           ["It wins a pawn."] ["The queen is"; "trapped after Nc3."]
           [] ["Loose pieces drop off."]); reflexivity.
Defined.

Section Unstructured.

Lemma parse_lines_labels_only lines : forall sections cs,
  forallb blank_or_label lines = true ->
  exists cs', parse_lines lines (sections, cs) = inr (sections, cs').
Proof.
  induction lines as [| line lines IH]; intros sections cs Hall; [eauto |].
  change (forallb blank_or_label (line :: lines))
    with (blank_or_label line && forallb blank_or_label lines) in Hall.
  apply andb_true_iff in Hall as [Hline Hrest].
  rewrite parse_lines_cons. unfold parse_line, blank_or_label in *.
  destruct (PyStr.truthy (PyStr.strip line)); simpl in *; [| apply IH, Hrest].
  destruct (section_header (PyStr.strip line)); [apply IH, Hrest | discriminate].
Qed.

Lemma parse_lines_preamble pre : forall sections rest,
  forallb plain pre = true ->
  parse_lines (pre ++ rest) (sections, None) = parse_lines rest (sections, None).
Proof.
  induction pre as [| line pre IH]; intros sections rest Hall; [reflexivity |].
  change (forallb plain (line :: pre)) with (plain line && forallb plain pre) in Hall.
  apply andb_true_iff in Hall as [Hline Hrest].
  change ((line :: pre) ++ rest) with (line :: (pre ++ rest)).
  rewrite parse_lines_cons. unfold parse_line, plain in *.
  destruct (PyStr.truthy (PyStr.strip line)); simpl in *; [| apply IH, Hrest].
  destruct (section_header (PyStr.strip line)); [discriminate | apply IH, Hrest].
Qed.

Lemma parse_response_returns response :
  exists explanation, _parse_response response = inr explanation.
Proof.
  unfold _parse_response.
  destruct (parse_lines_well_keyed (response_lines response) _ initial_well_keyed)
    as ([sections cs] & Hrun & Hkeys & _).
  rewrite Hrun. simpl in Hkeys. unfold getitem.
  destruct (Hkeys "why_looked_good") as [good ->]; [unfold is_key; auto |].
  destruct (Hkeys "why_failed") as [failed ->]; [unfold is_key; auto |].
  destruct (Hkeys "concept_involved") as [concept ->]; [unfold is_key; auto |].
  destruct (Hkeys "typical_pattern") as [pattern ->]; [unfold is_key; auto |].
  eauto.
Qed.

End Unstructured.

(** X16. Text on the line of a label is never stored: a response in which
    every line that is not blank carries a label, as an answer written
    [CONCEPT: King safety] on one line, gives four empty fields. *)
Theorem text_on_label_lines_is_dropped (response : string) :
  forallb blank_or_label (response_lines response) = true ->
  _parse_response response = inr empty_explanation.
Proof.
  intros Hall. unfold _parse_response.
  destruct (parse_lines_labels_only _ initial_sections None Hall) as [cs' ->].
  reflexivity.
Qed.

Lemma text_on_label_lines_is_dropped_witness :
  _parse_response
    (join_lines ["Why it failed: the queen hangs"; ""; "CONCEPT: King safety"]) =
  inr empty_explanation.
Proof.
  apply text_on_label_lines_is_dropped. reflexivity.
Defined.

(** X17. Lines before the first label are ignored: a response whose lines
    are lines without a label followed by the lines of another response
    is parsed as that other response. *)
Theorem text_before_first_label_is_ignored (response response' : string)
        (preamble : list string) :
  response_lines response = preamble ++ response_lines response' ->
  forallb plain preamble = true ->
  _parse_response response = _parse_response response'.
Proof.
  intros Hlines Hplain. unfold _parse_response.
  rewrite Hlines, (parse_lines_preamble _ _ _ Hplain). reflexivity.
Qed.

Lemma text_before_first_label_is_ignored_witness :
  _parse_response
    (join_lines ["Sure, here is the analysis."; ""; "WHY IT FAILED:"; "The queen hangs."]) =
  _parse_response (join_lines ["WHY IT FAILED:"; "The queen hangs."]).
Proof.
  apply (text_before_first_label_is_ignored _ _ ["Sure, here is the analysis."; ""]);
    reflexivity.
Defined.

(** X18. The network-backed explainer raises exactly when the call to the
    backend does, with the same error; whatever text the backend returns,
    the explainer returns the [Explanation] parsed from it. *)
Theorem openai_explainer_raises_only_backend_errors `{lib : ChessLib}
        (_call_openai : trace -> Mistake -> result string)
        (tr : trace) (mistake : Mistake) :
  (forall e,
      explain_mistake (OpenAIExplainer _call_openai) tr mistake = inl e <->
      _call_openai tr mistake = inl e) /\
  (forall response,
      _call_openai tr mistake = inr response ->
      exists explanation,
        _parse_response response = inr explanation /\
        explain_mistake (OpenAIExplainer _call_openai) tr mistake = inr explanation).
Proof.
  simpl. split.
  - intros e. destruct (_call_openai tr mistake) as [e' | response].
    + split; intros [= <-]; reflexivity.
    + destruct (parse_response_returns response) as [ex ->].
      split; discriminate.
  - intros response ->. destruct (parse_response_returns response) as [ex Hex].
    exists ex. rewrite Hex. auto.
Qed.

Lemma openai_explainer_raises_only_backend_errors_witness :
  exists explanation,
    explain_mistake (OpenAIExplainer (fun _ _ => inr sample_response)) []
                    (the_mistake Toy.toy_white_blunder) = inr explanation.
Proof.
  destruct (proj2 (openai_explainer_raises_only_backend_errors
                     (fun _ _ => inr sample_response) []
                     (the_mistake Toy.toy_white_blunder))
                  sample_response eq_refl)
    as (explanation & _ & Hex).
  exists explanation. exact Hex.
Defined.
